(** * Constructor.js: prototype linking and the call-once parent initializer

    A shallow embedding of [src/src/Constructor.js] (the functions
    [Constructor], [Constructor.extend] and the [parent] method that [extend]
    installs, and the module that exports them) over an explicit JavaScript
    object heap, followed by the properties of the repository's
    specification, each proved or refuted on that embedding, and by further
    properties of the code.

    Scope of the runtime model.  Objects carry a prototype link, an optional
    [[Call]] behaviour and an insertion-ordered list of own data properties
    with their enumerable flag; every property is writable and configurable
    and every object is extensible (no accessors, frozen objects, proxies or
    symbols: the source is ES3/ES5 sloppy-mode code and uses none of them).
    Numbers are the integers they denote, and only the integers below 2^53
    in magnitude, which are numbers of the language and are printed digit by
    digit, are converted to text (fractions, NaN and the infinities are not
    represented).  [x.hasOwnProperty(k)] and [f.apply(t, a)] denote the
    built-ins of [Object.prototype] and [Function.prototype]: the first is
    what the language runs for an object that satisfies
    [inherits_hasOwnProperty], and a statement below that asserts that a
    run returns, or throws a given error, after an object has been asked for
    its own properties takes this as a hypothesis on that object.  Functions
    that cannot be used with [new] (methods, arrow functions) are told apart
    from those that can.  Error objects are represented by their class and
    message. *)

From Stdlib Require Import ZArith List String Bool Lia.
From stdpp Require Import base list strings pretty.

Local Open Scope string_scope.
Local Open Scope list_scope.

(** ** Values, objects and the heap *)

(** Heap locations and heaps are plain [nat] and [list object], so that the
    list lemmas of stdpp apply to them as they are. *)
Abbreviation loc := nat (only parsing).

Inductive value : Type :=
| VUndef
| VNull
| VBool (b : bool)
| VNum (n : Z)
| VStr (s : string)
| VObj (l : loc).

(** The function bodies that can be attached to a function object.  The first
    three are the function literals of Constructor.js; [UserFn] stands for a
    function of the caller that [new] accepts (a function declaration or
    expression), [UserMethod] for one that [new] refuses (an arrow function,
    a method, a built-in that is not a constructor). *)
Inductive code : Type :=
| NoopFn              (* [function () {}], line 48 *)
| LinkFn              (* [function F() {}], line 83 *)
| ParentFn            (* the function expression of lines 111-127 *)
| UserFn (id : nat)
| UserMethod (id : nat).

(** The functions that have [[Construct]]. *)
Definition constructible (c : code) : bool :=
  match c with UserMethod _ => false | _ => true end.

Record prop : Type := Prop_ { p_value : value; p_enum : bool }.

Record object : Type := Obj {
  o_proto : option loc;               (* [[Prototype]] *)
  o_code  : option code;              (* [[Call]], for function objects *)
  o_props : list (string * prop)      (* own properties, in insertion order *)
}.

Abbreviation heap := (list object) (only parsing).

(** Intrinsic objects every realm starts with. *)
Definition ObjectPrototype : loc := 0.
Definition FunctionPrototype : loc := 1.

Inductive js_error : Type :=
| ReferenceError (message : string)   (* [throw new ReferenceError(message)] *)
| TypeError (message : string)        (* [throw new TypeError(message)] *)
| EngineTypeError                     (* a TypeError of the runtime itself *)
| Thrown (v : value).                 (* any value thrown by caller code *)

Inductive failure : Type :=
| OutOfFuel        (* the interpreter's step budget is exhausted *)
| DanglingRef      (* a reference to an object that is not in the heap *)
| Unrepresentable. (* the text of a number the model does not print *)

Inductive outcome (A : Type) : Type :=
| Ret (a : A) (h : heap)
| Throw (e : js_error) (h : heap)
| NoResult (why : failure).

Arguments Ret {A} a h.
Arguments Throw {A} e h.
Arguments NoResult {A} why.

(** ** The state-and-exception monad of JavaScript evaluation *)

Definition M (A : Type) : Type := heap -> outcome A.

Definition ret {A} (a : A) : M A := fun h => Ret a h.

Definition throw {A} (e : js_error) : M A := fun h => Throw e h.

Definition bind {A B} (m : M A) (k : A -> M B) : M B := fun h =>
  match m h with
  | Ret a h' => k a h'
  | Throw e h' => Throw e h'
  | NoResult w => NoResult w
  end.

Declare Scope js_scope.
Delimit Scope js_scope with js.
Notation "x <- m ;; k" := (bind m (fun x => k))
  (at level 100, m at next level, right associativity) : js_scope.
Notation "m ;;; k" := (bind m (fun _ => k))
  (at level 100, right associativity) : js_scope.
Local Open Scope js_scope.

(** ** Own properties *)

Fixpoint props_get (ps : list (string * prop)) (k : string) : option prop :=
  match ps with
  | [] => None
  | (k', p) :: ps' => if String.eqb k' k then Some p else props_get ps' k
  end.

(** Assignment to a data property: an existing property keeps its place and
    its enumerable flag, a new one is appended and is enumerable. *)
Fixpoint props_set (ps : list (string * prop)) (k : string) (v : value)
  : list (string * prop) :=
  match ps with
  | [] => [(k, Prop_ v true)]
  | (k', p) :: ps' =>
      if String.eqb k' k then (k', Prop_ v (p_enum p)) :: ps'
      else (k', p) :: props_set ps' k v
  end.

Definition with_props (o : object) (ps : list (string * prop)) : object :=
  Obj (o_proto o) (o_code o) ps.

Definition own_prop (h : heap) (l : loc) (k : string) : option prop :=
  match h !! l with
  | Some o => props_get (o_props o) k
  | None => None
  end.

Definition own_value (h : heap) (l : loc) (k : string) : option value :=
  option_map p_value (own_prop h l k).

Definition code_of (h : heap) (v : value) : option code :=
  match v with
  | VObj l => match h !! l with Some o => o_code o | None => None end
  | _ => None
  end.

Definition proto_of (h : heap) (l : loc) : option loc :=
  match h !! l with Some o => o_proto o | None => None end.

(** Property lookup along the prototype chain.  The fuel bounds the length of
    the chain; [length h] suffices for every acyclic chain of [h]. *)
Fixpoint lookup_chain (fuel : nat) (h : heap) (l : loc) (k : string)
  : option prop :=
  match fuel with
  | 0 => None
  | S n =>
      match h !! l with
      | None => None
      | Some o =>
          match props_get (o_props o) k with
          | Some p => Some p
          | None =>
              match o_proto o with
              | Some l' => lookup_chain n h l' k
              | None => None
              end
          end
      end
  end.

(** The objects visited by a lookup that starts at [l]. *)
Fixpoint proto_chain (fuel : nat) (h : heap) (l : loc) : list loc :=
  match fuel with
  | 0 => []
  | S n =>
      match h !! l with
      | None => []
      | Some o =>
          l :: match o_proto o with
               | Some l' => proto_chain n h l'
               | None => []
               end
      end
  end.

Definition mem (k : string) (ks : list string) : bool :=
  existsb (String.eqb k) ks.

(** The keys a [for (k in o)] statement visits: the enumerable own keys, then
    those of each prototype in turn, a key being skipped once an object
    nearer to [o] has a property of that name.  The order within an object is
    the insertion order; nothing below depends on it. *)
Fixpoint for_in_keys (fuel : nat) (h : heap) (l : loc) (seen : list string)
  : list string :=
  match fuel with
  | 0 => []
  | S n =>
      match h !! l with
      | None => []
      | Some o =>
          map fst (List.filter
                     (fun kp => p_enum (snd kp) && negb (mem (fst kp) seen))
                     (o_props o))
          ++ match o_proto o with
             | Some l' => for_in_keys n h l' (seen ++ map fst (o_props o))
             | None => []
             end
      end
  end.

(** ** Primitive operations of the language *)

(** [typeof v] *)
Definition typeof (h : heap) (v : value) : string :=
  match v with
  | VUndef => "undefined"
  | VNull => "object"
  | VBool _ => "boolean"
  | VNum _ => "number"
  | VStr _ => "string"
  | VObj _ => match code_of h v with Some _ => "function" | None => "object" end
  end.

Definition Typeof (v : value) : M string := fun h => Ret (typeof h v) h.

(** The integers every one of which is a number of the language, printed
    with all its digits: those below 2^53 in magnitude. *)
Definition safe_integer (n : Z) : bool := (Z.abs n <? 2 ^ 53)%Z.

(** [ToString] on primitives, as used by [string + v].  A number outside
    the safe integers has no text in the model: it may be no number of the
    language, or one the language prints rounded or with an exponent. *)
Definition to_string (v : value) : option string :=
  match v with
  | VUndef => Some "undefined"
  | VNull => Some "null"
  | VBool true => Some "true"
  | VBool false => Some "false"
  | VNum n => if safe_integer n then Some (pretty n) else None
  | VStr s => Some s
  | VObj _ => Some "[object Object]"
  end.

(** [v.k] and [v[k]]: reading a property.  The wrapper prototypes of
    booleans, numbers and strings are not modelled: on these a read yields
    [undefined], as the reads of [prototype] and [parent] do in the source. *)
Definition Get (v : value) (k : string) : M value := fun h =>
  match v with
  | VUndef | VNull => Throw EngineTypeError h
  | VObj l =>
      match h !! l with
      | None => NoResult DanglingRef
      | Some _ =>
          Ret (match lookup_chain (length h) h l k with
               | Some p => p_value p
               | None => VUndef
               end) h
      end
  | _ => Ret VUndef h
  end.

(** [v.k = x] in sloppy mode: a silent no-op on a primitive. *)
Definition Put (v : value) (k : string) (x : value) : M unit := fun h =>
  match v with
  | VUndef | VNull => Throw EngineTypeError h
  | VObj l =>
      match h !! l with
      | None => NoResult DanglingRef
      | Some o => Ret tt (<[l := with_props o (props_set (o_props o) k x)]> h)
      end
  | _ => Ret tt h
  end.

(** [v.hasOwnProperty(k)], the method being the built-in of
    [Object.prototype]: what the language does when [v] inherits that
    method ([inherits_hasOwnProperty] below).  On an object that does not
    (its prototype chain does not reach [Object.prototype], or a property of
    that name comes first), the language throws a TypeError or runs other
    code. *)
Definition HasOwnProperty (v : value) (k : string) : M bool := fun h =>
  match v with
  | VUndef | VNull => Throw EngineTypeError h
  | VObj l =>
      match h !! l with
      | None => NoResult DanglingRef
      | Some o =>
          Ret (match props_get (o_props o) k with
               | Some _ => true
               | None => false
               end) h
      end
  | _ => Ret false h
  end.

Definition alloc (o : object) : M value := fun h =>
  Ret (VObj (length h)) (h ++ [o]).

(** Evaluating a function literal: a fresh function object whose [prototype]
    is a fresh object pointing back to it through [constructor]. *)
Definition function_object (c : code) (pr : loc) : object :=
  Obj (Some FunctionPrototype) (Some c) [("prototype", Prop_ (VObj pr) false)].

Definition prototype_object (f : loc) : object :=
  Obj (Some ObjectPrototype) None [("constructor", Prop_ (VObj f) false)].

Definition new_function (c : code) : M value := fun h =>
  let f := length h in
  Ret (VObj f) (h ++ [function_object c (S f); prototype_object f]).

(** [new f(...)], the body of [f] being given as [body this]: a TypeError
    when [f] is not a function that has [[Construct]]. *)
Definition construct (body : value -> M value) (f : value) : M value :=
  fun h =>
    match code_of h f with
    | None => Throw EngineTypeError h
    | Some c =>
        if constructible c then
          (pv <- Get f "prototype" ;;
           this <- alloc (Obj (match pv with
                               | VObj l => Some l
                               | _ => Some ObjectPrototype
                               end) None []) ;;
           r <- body this ;;
           ret (match r with VObj _ => r | _ => this end)) h
        else Throw EngineTypeError h
    end.

Fixpoint for_each (keys : list string) (body : string -> M unit) : M unit :=
  match keys with
  | [] => ret tt
  | k :: ks => body k ;;; for_each ks body
  end.

Definition ForInKeys (v : value) : M (list string) := fun h =>
  match v with
  | VObj l => Ret (for_in_keys (length h) h l []) h
  | _ => Ret [] h
  end.

(** The loop shared by lines 98-102 and 118-122:
    [for (var k in from) { if (from.hasOwnProperty(k)) { to[k] = from[k]; } }] *)
Definition copy_own (from to : value) : M unit :=
  keys <- ForInKeys from ;;
  for_each keys (fun k =>
    own <- HasOwnProperty from k ;;
    if own : bool then (v <- Get from k ;; Put to k v) else ret tt).

(** ** Constructor.js *)

Definition is_null (v : value) : bool :=
  match v with VNull => true | _ => false end.

Definition Constructor_error : string :=
  "Constructor(): invalid 'source' argument, must be a function or prototype, but was ".

(** [function Constructor(source)], lines 30-54 *)
Definition Constructor (source : value) : M value :=
  type <- Typeof source ;;
  if String.eqb "function" type then
    ret source
  else if String.eqb "undefined" type then
    throw (ReferenceError (Constructor_error ++ "undefined"))
  else if negb (String.eqb "object" type) || is_null source then
    match (if negb (String.eqb "object" type)
           then option_map
                  (fun text : string => (type ++ " [" ++ text ++ "]")%string)
                  (to_string source)
           else Some "null") with
    | Some was => throw (TypeError (Constructor_error ++ was))
    | None => fun _ => NoResult Unrepresentable
    end
  else
    own <- HasOwnProperty source "constructor" ;;
    ctr <- (if own : bool then Get source "constructor"
            else new_function NoopFn) ;;
    Put ctr "prototype" source ;;;
    tmpl <- Get ctr "prototype" ;;
    Put tmpl "constructor" ctr ;;;
    ret ctr.

Definition extend_error : string := "Constructor.extend(): ".

(** Lines 78 and 79: [(type !== 'function') ? new Constructor(x) : x].
    [new Constructor(x)] yields what [Constructor(x)] returns, since that is
    always an object; the object [new] allocates for [this] is never used and
    is left out. *)
Definition pass_through (type : string) (x : value) : M value :=
  if negb (String.eqb type "function") then Constructor x else ret x.

(** Lines 85-131 of [extend]: linking [F], building the new prototype and
    installing it. *)
Definition extend_build (F newSource newConstructor : value)
           (targetType : string) : M value :=
  Put newConstructor "parent" F ;;;
  st <- Get newSource "prototype" ;;
  Put F "prototype" st ;;;
  newPrototype <- construct (fun _ => ret VUndef) F ;;
  (if String.eqb targetType "object" then
     proto <- Get newConstructor "prototype" ;;
     copy_own proto newPrototype
   else ret tt) ;;;
  Put newPrototype "constructor" newConstructor ;;;
  parentFn <- new_function ParentFn ;;
  Put newPrototype "parent" parentFn ;;;
  Put newConstructor "prototype" newPrototype ;;;
  ret newConstructor.

(** [function extend(source, target)], lines 64-132.  [arguments] is the
    list of actual arguments.  [F] is a function declaration, so its function
    object exists from the entry of [extend]. *)
Definition extend (arguments : list value) : M value :=
  let source := nth 0 arguments VUndef in
  let target := nth 1 arguments VUndef in
  F <- new_function LinkFn ;;
  if Nat.ltb (length arguments) 2 then
    throw (TypeError
             (extend_error ++ "requires 2 arguments, source and target."))
  else
    sourceType <- Typeof source ;;
    targetType <- Typeof target ;;
    newSource <- pass_through sourceType source ;;
    newConstructor <- pass_through targetType target ;;
    extend_build F newSource newConstructor targetType.

(** A function value applied to a receiver and arguments. *)
Definition callback := value -> value -> list value -> M value.

(** [f.apply(thisArg, args)] *)
Definition Apply (call : callback) (f this : value) (args : list value)
  : M value := fun h =>
  match code_of h f with
  | Some _ => call f this args h
  | None => Throw EngineTypeError h
  end.

(** The method installed as [newPrototype.parent], lines 111-127.  [call]
    runs a function value. *)
Definition parent (call : callback) (this : value) (arguments : list value)
  : M value :=
  c <- Get this "constructor" ;;
  parent <- Get c "parent" ;;
  p <- construct (fun this' => call parent this' []) parent ;;
  pc <- Get p "constructor" ;;
  Apply call pc p arguments ;;;
  copy_own p this ;;;
  Put this "parent" p ;;;
  ret this.

(** Lines 113-115 of [parent] and the callee of line 116: the receiver [p]
    and the function [p.constructor] that [parent] is about to apply. *)
Definition parent_setup (call : callback) (this : value)
  : M (value * value) :=
  c <- Get this "constructor" ;;
  parent <- Get c "parent" ;;
  p <- construct (fun this' => call parent this' []) parent ;;
  pc <- Get p "constructor" ;;
  ret (p, pc).

(** ** Running function values *)

Section Interpreter.

(** The bodies of the caller's functions: each may call back into the
    interpreter. *)
Variable user_code : nat -> callback -> value -> list value -> M value.

(** The receiver is passed as it is: sloppy-mode code would see the global
    object for [undefined] and a wrapper object for a primitive, and [parent]
    ends in the runtime's TypeError on either. *)
Fixpoint call (fuel : nat) (f this : value) (args : list value) : M value :=
  fun h =>
    match fuel with
    | 0 => NoResult OutOfFuel
    | S n =>
        match code_of h f with
        | None => Throw EngineTypeError h
        | Some NoopFn => Ret VUndef h
        | Some LinkFn => Ret VUndef h
        | Some ParentFn => parent (call n) this args h
        | Some (UserFn id) => user_code id (call n) this args h
        | Some (UserMethod id) => user_code id (call n) this args h
        end
    end.

(** [new f(args)] *)
Definition New (fuel : nat) (f : value) (args : list value) : M value :=
  construct (fun this => call fuel f this args) f.

(** [this.name(args)] *)
Definition invoke (fuel : nat) (this : value) (name : string)
           (args : list value) : M value :=
  f <- Get this name ;;
  call fuel f this args.

End Interpreter.

(** ** The module *)

(** The two function declarations of the module as function values of the
    interpreter: [UserFn 0] is [Constructor], [UserFn 1] is [extend], and
    [UserFn (2 + n)] is the caller's function [n]. *)
Definition module_code
           (user : nat -> callback -> value -> list value -> M value)
           (id : nat) (call : callback) (this : value) (args : list value)
  : M value :=
  match id with
  | 0 => Constructor (nth 0 args VUndef)
  | 1 => extend args
  | S (S n) => user n call this args
  end.

(** The body of the function expression of lines 21-134 applied to
    [exports]: the two declarations are instantiated on entry, then lines 23
    and 62 are executed. *)
Definition module_init (exports : value) : M value :=
  Constructor_fn <- new_function (UserFn 0) ;;
  extend_fn <- new_function (UserFn 1) ;;
  Put exports "Constructor" Constructor_fn ;;;
  Put Constructor_fn "extend" extend_fn ;;;
  ret VUndef.

(** * Auxiliary definitions for the statements *)

(** ** Assignment, reading and the copy loop as heap functions *)

Definition put (h : heap) (l : loc) (k : string) (x : value) : heap :=
  match h !! l with
  | Some o => <[l := with_props o (props_set (o_props o) k x)]> h
  | None => h
  end.

Definition get_value (h : heap) (l : loc) (k : string) : value :=
  match lookup_chain (length h) h l k with
  | Some p => p_value p
  | None => VUndef
  end.

Definition copy_step (from to : loc) (h : heap) (k : string) : heap :=
  match own_prop h from k with
  | Some pr => put h to k (p_value pr)
  | None => h
  end.

Definition copy_into (h : heap) (from to : loc) : heap :=
  fold_left (copy_step from to) (for_in_keys (length h) h from []) h.

(** ** [extend] as a heap function *)

Definition default_proto (v : value) : loc :=
  match v with VObj l => l | _ => ObjectPrototype end.

Definition copied (h : heap) (k P : loc) (targetType : string) : heap :=
  if String.eqb targetType "object" then
    match get_value h k "prototype" with
    | VObj t => copy_into h t P
    | _ => h
    end
  else h.

Definition built_heap (h : heap) (f s k : loc) (targetType : string) : heap :=
  let h3 := put h k "parent" (VObj f) in
  let st := get_value h3 s "prototype" in
  let h4 := put h3 f "prototype" st in
  let P := length h in
  let h5 := h4 ++ [Obj (Some (default_proto st)) None []] in
  let h6 := copied h5 k P targetType in
  let h7 := put h6 P "constructor" (VObj k) in
  let h8 := h7 ++ [function_object ParentFn (S (S P));
                   prototype_object (S P)] in
  put (put h8 P "parent" (VObj (S P))) k "prototype" (VObj P).

(** The heap once the declaration of [F] has been instantiated. *)
Definition entry_heap (h : heap) : heap :=
  h ++ [function_object LinkFn (S (length h)); prototype_object (length h)].

(** What a successful [Constructor] call does to an object specification [o]:
    it makes a no-op constructor for it, or reuses the one it names. *)
Inductive normalizes (h : heap) (o : loc) : loc -> heap -> Prop :=
| norm_fresh :
    own_prop h o "constructor" = None ->
    normalizes h o (length h)
      (put (put (h ++ [function_object NoopFn (S (length h));
                       prototype_object (length h)])
                (length h) "prototype" (VObj o))
           o "constructor" (VObj (length h)))
| norm_reuse c pr :
    own_prop h o "constructor" = Some pr ->
    p_value pr = VObj c ->
    is_Some (h !! c) ->
    normalizes h o c
      (put (put h c "prototype" (VObj o)) o "constructor" (VObj c)).

(** ** The error classes of the specification *)



Definition ArgumentCount : js_error :=
  TypeError (extend_error ++ "requires 2 arguments, source and target.").

(** ** Well-formed inputs *)

(** A value of the heap: a primitive or a reference to one of its objects. *)
Definition valid_ref (h : heap) (v : value) : bool :=
  match v with VObj l => Nat.ltb l (length h) | _ => true end.

(** No property of the heap holds a dangling reference, and no prototype
    link is one. *)
Definition closed_heap (h : heap) : bool :=
  forallb (fun o =>
             forallb (fun kp => valid_ref h (p_value (snd kp))) (o_props o)
             && match o_proto o with
                | Some l => Nat.ltb l (length h)
                | None => true
                end) h.

(** No object specification of a closed heap names, as its constructor, the
    link function [extend] is about to create. *)
Definition link_unnamed (h : heap) (h1 : heap) : Prop :=
  forall l c, l < length h ->
              own_value h1 l "constructor" = Some (VObj c) -> c <> length h.

(** The wiring [extend] leaves on the constructor [k] it returns: its
    [parent] is the link function [f], whose [prototype] is [tmpl]. *)
Record wired (h : heap) (k f : loc) (tmpl : value) : Prop := Wired {
  wired_parent : own_value h k "parent" = Some (VObj f);
  wired_link : code_of h (VObj f) = Some LinkFn;
  wired_template : own_value h f "prototype" = Some tmpl
}.

(** The object [new f] creates for a link function whose prototype is
    [tmpl]. *)
Definition link_instance (tmpl : value) : object :=
  Obj (Some (default_proto tmpl)) None [].

(** ** Objects that answer [hasOwnProperty] *)

(** Whether [l.hasOwnProperty] is the built-in of [Object.prototype]: the
    prototype chain of [l] reaches [Object.prototype], and no object on it
    has a property of that name.  An object made with a null prototype does
    not, and the language throws a TypeError when it is asked. *)
Fixpoint inherits_hasOwnProperty_from (fuel : nat) (h : heap) (l : loc)
  : bool :=
  match fuel with
  | 0 => false
  | S n =>
      match h !! l with
      | None => false
      | Some o =>
          match props_get (o_props o) "hasOwnProperty" with
          | Some _ => false
          | None =>
              if Nat.eqb l ObjectPrototype then true
              else match o_proto o with
                   | Some l' => inherits_hasOwnProperty_from n h l'
                   | None => false
                   end
          end
      end
  end.

Definition inherits_hasOwnProperty (h : heap) (l : loc) : bool :=
  inherits_hasOwnProperty_from (length h) h l.

(** An argument of [extend] that is an object and not a function is asked
    [hasOwnProperty('constructor')] by [Constructor], line 48. *)
Definition answers_hasOwnProperty (h : heap) (v : value) : bool :=
  match v with
  | VObj l =>
      match code_of h v with
      | Some _ => true
      | None => inherits_hasOwnProperty h l
      end
  | _ => true
  end.

(** ** Specifications and objects with distinct keys *)

(** The keys of an object are distinct. *)
Fixpoint distinct (ks : list string) : bool :=
  match ks with
  | [] => true
  | k :: ks' => negb (mem k ks') && distinct ks'
  end.

Definition distinct_keys (o : object) : bool := distinct (map fst (o_props o)).


Definition is_function (h : heap) (v : value) : bool :=
  match code_of h v with Some _ => true | None => false end.

(** What the documentation asks of [source] and [target]: a function, or an
    object whose own [constructor], when it has one, is a function. *)
Definition is_specification (h : heap) (v : value) : bool :=
  match v with
  | VObj o =>
      match h !! o with
      | Some ob =>
          match o_code ob with
          | Some _ => true
          | None =>
              match props_get (o_props ob) "constructor" with
              | Some pr => is_function h (p_value pr)
              | None => true
              end
          end
      | None => false
      end
  | _ => false
  end.

(** The normalization of one argument of [extend]: a function is passed
    through, an object specification goes through [Constructor]. *)
Definition normalized (h : heap) (o s : loc) (h1 : heap) : Prop :=
  (is_function h (VObj o) = true /\ s = o /\ h1 = h)
  \/ (is_function h (VObj o) = false /\ normalizes h o s h1).

(** Lengths of heaps built from assignments, copies and allocations. *)
Create Rewrite HintDb heap_len.

Ltac len := autorewrite with heap_len; simpl; try lia.

(** ** Concrete heaps and caller code *)

(** [Object.prototype] and [Function.prototype], without the properties the
    language gives them ([Object.prototype.constructor] and the built-in
    methods), none of which the source reads by name except
    [hasOwnProperty] and [apply], modelled by [HasOwnProperty] and
    [Apply]. *)
Definition realm : heap :=
  [ Obj None None []; Obj (Some ObjectPrototype) None [] ].

(** Caller code for the concrete instances:
    0: [function Source(name) { this.kind = 'source'; this.name = name; }]
    1: [function (name) { this.parent(name); }]
    any other: [function () {}] *)
Definition demo_code (id : nat) (call : callback) (this : value)
           (args : list value) : M value :=
  match id with
  | 0 => Put this "kind" (VStr "source") ;;;
         Put this "name" (nth 0 args VUndef) ;;;
         ret VUndef
  | 1 => f <- Get this "parent" ;;
         call f this [nth 0 args VUndef] ;;;
         ret VUndef
  | _ => ret VUndef
  end.

(** [{ a: 1 }] *)
Definition plain_heap : heap :=
  realm ++ [Obj (Some ObjectPrototype) None [("a", Prop_ (VNum 1) true)]].

(** [plain_heap] once [Constructor] has been applied to its object. *)
Definition plain_normalized : heap :=
  realm ++
  [ Obj (Some ObjectPrototype) None
        [("a", Prop_ (VNum 1) true); ("constructor", Prop_ (VObj 3) true)];
    Obj (Some FunctionPrototype) (Some NoopFn)
        [("prototype", Prop_ (VObj 2) false)];
    Obj (Some ObjectPrototype) None [("constructor", Prop_ (VObj 3) false)] ].

(** [plain_heap] after [extend(o, 42)] has thrown. *)
Definition plain_after_failed_extend : heap :=
  realm ++
  [ Obj (Some ObjectPrototype) None
        [("a", Prop_ (VNum 1) true); ("constructor", Prop_ (VObj 5) true)];
    function_object LinkFn 4;
    prototype_object 3;
    Obj (Some FunctionPrototype) (Some NoopFn)
        [("prototype", Prop_ (VObj 2) false)];
    prototype_object 5 ].

(** [function Base() {}; Base.prototype.foo = 1;] *)
Definition base_heap : heap :=
  realm ++
  [ function_object (UserFn 2) 3;
    Obj (Some ObjectPrototype) None
        [("constructor", Prop_ (VObj 2) false); ("foo", Prop_ (VNum 1) true)] ].

(** [base_heap] after [extend(Base, Base)]. *)
Definition base_self_extended : heap :=
  realm ++
  [ Obj (Some FunctionPrototype) (Some (UserFn 2))
        [("prototype", Prop_ (VObj 6) false); ("parent", Prop_ (VObj 4) true)];
    Obj (Some ObjectPrototype) None
        [("constructor", Prop_ (VObj 2) false); ("foo", Prop_ (VNum 1) true)];
    Obj (Some FunctionPrototype) (Some LinkFn)
        [("prototype", Prop_ (VObj 3) false)];
    prototype_object 4;
    Obj (Some 3) None
        [("constructor", Prop_ (VObj 2) true); ("parent", Prop_ (VObj 7) true)];
    function_object ParentFn 8;
    prototype_object 7 ].

(** [base_self_extended] with an object made by [new Base()] afterwards. *)
Definition base_self_instance : heap :=
  base_self_extended ++ [Obj (Some 6) None []].

(** [Source], object 2, a function; the object specification
    [{ constructor: Target, kind: 'target' }], object 4; [Target], object 5. *)
Definition demo_heap : heap :=
  realm ++
  [ function_object (UserFn 0) 3;
    prototype_object 2;
    Obj (Some ObjectPrototype) None
        [("constructor", Prop_ (VObj 5) true);
         ("kind", Prop_ (VStr "target") true)];
    function_object (UserFn 1) 6;
    prototype_object 5 ].

(** [demo_heap] after [Target = extend(Source, spec)]: [Target] is object 5,
    its link function object 7, its new prototype object 9. *)
Definition demo_extended : heap :=
  realm ++
  [ function_object (UserFn 0) 3;
    prototype_object 2;
    Obj (Some ObjectPrototype) None
        [("constructor", Prop_ (VObj 5) true);
         ("kind", Prop_ (VStr "target") true)];
    Obj (Some FunctionPrototype) (Some (UserFn 1))
        [("prototype", Prop_ (VObj 9) false); ("parent", Prop_ (VObj 7) true)];
    prototype_object 5;
    function_object LinkFn 3;
    prototype_object 7;
    Obj (Some 3) None
        [("constructor", Prop_ (VObj 5) true);
         ("kind", Prop_ (VStr "target") true);
         ("parent", Prop_ (VObj 10) true)];
    function_object ParentFn 11;
    prototype_object 10 ].

(** [demo_heap] after [extend(Source, Target)] with the function [Target],
    object 5, given as target. *)
Definition demo_function_extended : heap :=
  realm ++
  [ function_object (UserFn 0) 3;
    prototype_object 2;
    Obj (Some ObjectPrototype) None
        [("constructor", Prop_ (VObj 5) true);
         ("kind", Prop_ (VStr "target") true)];
    Obj (Some FunctionPrototype) (Some (UserFn 1))
        [("prototype", Prop_ (VObj 9) false); ("parent", Prop_ (VObj 7) true)];
    prototype_object 5;
    function_object LinkFn 3;
    prototype_object 7;
    Obj (Some 3) None
        [("constructor", Prop_ (VObj 5) true);
         ("parent", Prop_ (VObj 10) true)];
    function_object ParentFn 11;
    prototype_object 10 ].

(** An object made by [new Target], as the constructor body finds it. *)
Definition demo_instance : heap := demo_extended ++ [Obj (Some 9) None []].

(** The same object with [this.constructor = Source] assigned before the
    call of [this.parent]. *)
Definition demo_instance_preset : heap :=
  demo_extended ++ [Obj (Some 9) None [("constructor", Prop_ (VObj 2) true)]].


(** [demo_initialized] once [parent] has returned on object 12. *)
Definition demo_done : heap :=
  demo_extended ++
  [ Obj (Some 9) None
        [("kind", Prop_ (VStr "source") true);
         ("name", Prop_ (VStr "x") true);
         ("parent", Prop_ (VObj 13) true)];
    Obj (Some 3) None
        [("kind", Prop_ (VStr "source") true);
         ("name", Prop_ (VStr "x") true)] ].




(** An empty [exports] object, object 2, and the heap once the module has
    been loaded on it: [Constructor] is object 3, [extend] object 5. *)
Definition unloaded_module : heap :=
  realm ++ [Obj (Some ObjectPrototype) None []].

Definition loaded_module : heap :=
  realm ++
  [ Obj (Some ObjectPrototype) None [("Constructor", Prop_ (VObj 3) true)];
    Obj (Some FunctionPrototype) (Some (UserFn 0))
        [("prototype", Prop_ (VObj 4) false); ("extend", Prop_ (VObj 5) true)];
    prototype_object 3;
    function_object (UserFn 1) 6;
    prototype_object 5 ].

(** [{ constructor: {} }]: the object named as constructor, object 3, is not
    a function. *)
Definition odd_heap : heap :=
  realm ++
  [ Obj (Some ObjectPrototype) None [("constructor", Prop_ (VObj 3) true)];
    Obj (Some ObjectPrototype) None [] ].

(** Caller code whose function 0 assigns a field and throws. *)
Definition failing_code (id : nat) (call : callback) (this : value)
           (args : list value) : M value :=
  match id with
  | 0 => Put this "kind" (VStr "source") ;;;
         throw (Thrown (VStr "refused"))
  | _ => ret VUndef
  end.

(** [demo_instance] once the initializer of [failing_code] has thrown on
    the link instance, object 13. *)
Definition demo_refused : heap :=
  demo_instance ++ [Obj (Some 3) None [("kind", Prop_ (VStr "source") true)]].

(** [demo_extended] with an empty object specification, object 12, and the
    heap after [extend(Target, {})]: the constructor made is object 15, its
    link function object 13, its prototype object 17. *)
Definition chain_heap : heap :=
  demo_extended ++ [Obj (Some ObjectPrototype) None []].

Definition chain_extended : heap :=
  Eval vm_compute in
    match extend [VObj 5; VObj 12] chain_heap with
    | Ret _ h => h
    | _ => []
    end.

(** An object, object 3, with an enumerable property, a property that is not
    enumerable and an inherited enumerable property, and an object, object
    4, that has a property [a] which is not enumerable. *)
Definition copy_heap : heap :=
  realm ++
  [ Obj (Some ObjectPrototype) None [("inherited", Prop_ (VNum 0) true)];
    Obj (Some 2) None
        [("a", Prop_ (VNum 1) true); ("hidden", Prop_ (VNum 2) false)];
    Obj (Some ObjectPrototype) None [("a", Prop_ (VNum 7) false)] ].

(** [demo_heap] with an object made by [new Target], object 7, and the heap
    after [extend(Source, Target)] is then called with the function
    [Target]. *)
Definition demo_early : heap := demo_heap ++ [Obj (Some 6) None []].

Definition demo_early_extended : heap :=
  Eval vm_compute in
    match extend [VObj 2; VObj 5] demo_early with
    | Ret _ h => h
    | _ => []
    end.

(** * Facts about the runtime model *)

(** ** Own property lists *)

Lemma props_get_set_eq ps k v :
  props_get (props_set ps k v) k
  = Some (Prop_ v (match props_get ps k with
                   | Some p => p_enum p
                   | None => true
                   end)).
Proof.
  induction ps as [|[k' p] ps IH]; simpl.
  - by rewrite String.eqb_refl.
  - destruct (String.eqb k' k) eqn:E; simpl; rewrite E; [done | exact IH].
Qed.

Lemma props_get_set_ne ps k k' v :
  k <> k' -> props_get (props_set ps k v) k' = props_get ps k'.
Proof.
  intros Hne. induction ps as [|[k0 p] ps IH]; simpl.
  - apply String.eqb_neq in Hne. by rewrite Hne.
  - destruct (String.eqb k0 k) eqn:E; simpl.
    + apply String.eqb_eq in E. subst k0.
      apply String.eqb_neq in Hne. by rewrite Hne.
    + by rewrite IH.
Qed.

(** ** Assignment as a heap update *)

Lemma Put_obj h l k x :
  is_Some (h !! l) -> Put (VObj l) k x h = Ret tt (put h l k x).
Proof. intros [o Ho]. unfold Put, put. by rewrite Ho. Qed.

Lemma put_None h l k x : h !! l = None -> put h l k x = h.
Proof. intros Ho. unfold put. by rewrite Ho. Qed.

Lemma put_length h l k x : length (put h l k x) = length h.
Proof. unfold put. destruct (h !! l); [apply length_insert | done]. Qed.

#[local] Hint Rewrite put_length @length_app : heap_len.

Lemma put_lookup_ne h l l' k x : l <> l' -> put h l k x !! l' = h !! l'.
Proof.
  intros Hne. unfold put. destruct (h !! l); [|done].
  by apply list_lookup_insert_ne.
Qed.

Lemma put_lookup_eq h l k x o :
  h !! l = Some o ->
  put h l k x !! l = Some (with_props o (props_set (o_props o) k x)).
Proof.
  intros Ho. unfold put. rewrite Ho.
  apply list_lookup_insert_eq. by eapply lookup_lt_Some.
Qed.

Lemma put_is_Some h l l' k x :
  is_Some (put h l k x !! l') <-> is_Some (h !! l').
Proof.
  rewrite !lookup_lt_is_Some. by rewrite put_length.
Qed.

Lemma own_prop_put_eq h l k x :
  is_Some (h !! l) ->
  own_prop (put h l k x) l k
  = Some (Prop_ x (match own_prop h l k with
                   | Some p => p_enum p
                   | None => true
                   end)).
Proof.
  intros [o Ho]. unfold own_prop. rewrite (put_lookup_eq _ _ _ _ _ Ho), Ho.
  simpl. apply props_get_set_eq.
Qed.

Lemma own_prop_put_ne h l l' k k' x :
  l <> l' \/ k <> k' -> own_prop (put h l k x) l' k' = own_prop h l' k'.
Proof.
  intros Hne. unfold own_prop.
  destruct (decide (l = l')) as [->|Hl].
  - destruct Hne as [?|Hk]; [congruence|].
    destruct (h !! l') as [o|] eqn:Ho.
    + rewrite (put_lookup_eq _ _ _ _ _ Ho). simpl. by apply props_get_set_ne.
    + rewrite put_None by done. by rewrite Ho.
  - by rewrite put_lookup_ne.
Qed.

Lemma own_value_put_eq h l k x :
  is_Some (h !! l) -> own_value (put h l k x) l k = Some x.
Proof. intros H. unfold own_value. by rewrite own_prop_put_eq. Qed.

Lemma own_value_put_ne h l l' k k' x :
  l <> l' \/ k <> k' -> own_value (put h l k x) l' k' = own_value h l' k'.
Proof. intros H. unfold own_value. by rewrite own_prop_put_ne. Qed.

Lemma code_of_put h l k x v : code_of (put h l k x) v = code_of h v.
Proof.
  destruct v as [| | | | |l']; try done. simpl.
  destruct (decide (l = l')) as [->|Hl].
  - destruct (h !! l') as [o|] eqn:Ho.
    + by rewrite (put_lookup_eq _ _ _ _ _ Ho).
    + rewrite put_None by done. by rewrite ?Ho.
  - by rewrite put_lookup_ne.
Qed.

Lemma proto_of_put h l k x l' : proto_of (put h l k x) l' = proto_of h l'.
Proof.
  unfold proto_of.
  destruct (decide (l = l')) as [->|Hl].
  - destruct (h !! l') as [o|] eqn:Ho.
    + by rewrite (put_lookup_eq _ _ _ _ _ Ho).
    + rewrite put_None by done. by rewrite ?Ho.
  - by rewrite put_lookup_ne.
Qed.

Lemma typeof_put h l k x v : typeof (put h l k x) v = typeof h v.
Proof. destruct v; try done. unfold typeof. by rewrite code_of_put. Qed.

(** A lookup is not affected by an assignment to another key. *)
Lemma lookup_chain_put_key_ne n h l k x l' k' :
  k <> k' -> lookup_chain n (put h l k x) l' k' = lookup_chain n h l' k'.
Proof.
  intros Hk. revert l'. induction n as [|n IH]; intros l'; [done|]. simpl.
  destruct (decide (l = l')) as [->|Hl].
  - destruct (h !! l') as [o|] eqn:Ho.
    + rewrite (put_lookup_eq _ _ _ _ _ Ho). simpl.
      rewrite props_get_set_ne by done.
      destruct (props_get (o_props o) k'); [done|].
      destruct (o_proto o); [apply IH | done].
    + rewrite put_None by done. by rewrite Ho.
  - rewrite put_lookup_ne by done.
    destruct (h !! l') as [o|]; [|done].
    destruct (props_get (o_props o) k'); [done|].
    destruct (o_proto o); [apply IH | done].
Qed.

(** An own property is found by the first step of a lookup. *)
Lemma lookup_chain_own n h l k p :
  own_prop h l k = Some p -> lookup_chain (S n) h l k = Some p.
Proof.
  unfold own_prop. simpl. destruct (h !! l) as [o|]; [|done].
  by intros ->.
Qed.

Lemma Get_own h l k p :
  own_prop h l k = Some p -> Get (VObj l) k h = Ret (p_value p) h.
Proof.
  intros Hp. unfold Get.
  assert (is_Some (h !! l)) as [o Ho].
  { unfold own_prop in Hp. destruct (h !! l); [eauto | done]. }
  rewrite Ho. destruct (length h) as [|n] eqn:Hn.
  - apply lookup_lt_Some in Ho. lia.
  - by rewrite (lookup_chain_own _ _ _ _ _ Hp).
Qed.

Lemma Get_own_value h l k v :
  own_value h l k = Some v -> Get (VObj l) k h = Ret v h.
Proof.
  unfold own_value. destruct (own_prop h l k) as [p|] eqn:Hp; [|done].
  simpl. intros [= <-]. by apply Get_own.
Qed.

(** ** Allocation *)

Lemma own_prop_app (h t : heap) l k :
  l < length h -> own_prop (h ++ t) l k = own_prop h l k.
Proof. intros Hl. unfold own_prop. by rewrite lookup_app_l. Qed.

Lemma own_value_app (h t : heap) l k :
  l < length h -> own_value (h ++ t) l k = own_value h l k.
Proof. intros Hl. unfold own_value. by rewrite own_prop_app. Qed.

Lemma code_of_app (h t : heap) l :
  l < length h -> code_of (h ++ t) (VObj l) = code_of h (VObj l).
Proof. intros Hl. unfold code_of. by rewrite lookup_app_l. Qed.

Lemma proto_of_app (h t : heap) l :
  l < length h -> proto_of (h ++ t) l = proto_of h l.
Proof. intros Hl. unfold proto_of. by rewrite lookup_app_l. Qed.

Lemma code_of_Some_lt (h : heap) l c :
  code_of h (VObj l) = Some c -> l < length h.
Proof.
  unfold code_of. destruct (h !! l) eqn:Ho; [|done]. intros _.
  by eapply lookup_lt_Some.
Qed.

(** ** Inversion of sequencing *)

Lemma bind_Ret {A B} (m : M A) (k : A -> M B) h b h' :
  bind m k h = Ret b h' ->
  exists a h1, m h = Ret a h1 /\ k a h1 = Ret b h'.
Proof. unfold bind. destruct (m h) as [a h1| |]; [eauto | done | done]. Qed.

Lemma bind_Throw {A B} (m : M A) (k : A -> M B) h e h' :
  bind m k h = Throw e h' ->
  m h = Throw e h' \/ exists a h1, m h = Ret a h1 /\ k a h1 = Throw e h'.
Proof.
  unfold bind. destruct (m h) as [a h1|e1 h1|]; [eauto | | done].
  intros [= -> ->]. by left.
Qed.

Lemma bind_eq_Ret {A B} (m : M A) (k : A -> M B) h a h1 :
  m h = Ret a h1 -> bind m k h = k a h1.
Proof. unfold bind. by intros ->. Qed.

(** ** [Constructor] case by case *)

Lemma Constructor_function h v :
  typeof h v = "function" -> Constructor v h = Ret v h.
Proof.
  intros Ht. unfold Constructor, bind, Typeof. rewrite Ht. reflexivity.
Qed.

Lemma typeof_function h v :
  typeof h v = "function" <-> exists c, code_of h v = Some c.
Proof.
  destruct v; simpl; try (split; [done | by intros [? ?]]).
  destruct (match h !! l with Some o => o_code o | None => None end);
    split; eauto; try done. by intros [? ?].
Qed.

Lemma Constructor_primitive h v :
  match v with VObj _ => False | _ => True end ->
  Constructor v h
  = match v with
    | VUndef => Throw (ReferenceError (Constructor_error ++ "undefined")) h
    | VNull => Throw (TypeError (Constructor_error ++ "null")) h
    | _ => match to_string v with
           | Some text =>
               Throw (TypeError (Constructor_error ++ typeof h v ++ " ["
                                   ++ text ++ "]")) h
           | None => NoResult Unrepresentable
           end
    end.
Proof.
  destruct v as [| |b|n| |]; try done; intros _; try reflexivity.
  - by destruct b.
  - unfold Constructor, bind, Typeof. cbn [typeof to_string].
    cbn [String.eqb Ascii.eqb Bool.eqb negb orb option_map].
    by destruct (safe_integer n).
Qed.

Lemma Constructor_primitive_not_Ret h v r h1 :
  match v with VObj _ => False | _ => True end ->
  Constructor v h <> Ret r h1.
Proof.
  intros Hv. rewrite (Constructor_primitive h v Hv).
  destruct v; try done; by destruct (to_string _).
Qed.

(** On a primitive the error does not depend on the heap. *)
Lemma Constructor_primitive_Throw h v e h1 :
  match v with VObj _ => False | _ => True end ->
  Constructor v h = Throw e h1 ->
  h1 = h
  /\ (forall h', Constructor v h' = Throw e h')
  /\ ((exists m, e = ReferenceError (Constructor_error ++ m))
      \/ (exists m, e = TypeError (Constructor_error ++ m))).
Proof.
  intros Hv HC. rewrite (Constructor_primitive h v Hv) in HC.
  assert (Hall : forall h', Constructor v h'
            = match Constructor v h with
              | Throw e' _ => Throw e' h'
              | Ret r _ => Ret r h'
              | NoResult w => NoResult w
              end).
  { intros h'. rewrite !(Constructor_primitive _ v Hv).
    destruct v; try done; by destruct (to_string _). }
  rewrite (Constructor_primitive h v Hv) in Hall.
  destruct v as [| |b|n|str|]; try done.
  - injection HC as <- <-. split; [done|]. split; [exact Hall|].
    left. eauto.
  - injection HC as <- <-. split; [done|]. split; [exact Hall|].
    right. eauto.
  - destruct (to_string (VBool b)) eqn:E; [|done].
    injection HC as <- <-. split; [done|]. split; [exact Hall|].
    right. eauto.
  - destruct (to_string (VNum n)) eqn:E; [|done].
    injection HC as <- <-. split; [done|]. split; [exact Hall|].
    right. eauto.
  - destruct (to_string (VStr str)) eqn:E; [|done].
    injection HC as <- <-. split; [done|]. split; [exact Hall|].
    right. eauto.
Qed.

(** An object specification [o]: a non-callable object of the heap. *)
Lemma Constructor_object h o ob :
  h !! o = Some ob -> o_code ob = None ->
  Constructor (VObj o) h
  = match props_get (o_props ob) "constructor" with
    | None =>
        let k := length h in
        Ret (VObj k)
            (put (put (h ++ [function_object NoopFn (S k); prototype_object k])
                      k "prototype" (VObj o))
                 o "constructor" (VObj k))
    | Some pr =>
        match p_value pr with
        | VUndef | VNull => Throw EngineTypeError h
        | VObj c =>
            match h !! c with
            | Some _ =>
                Ret (VObj c)
                    (put (put h c "prototype" (VObj o)) o "constructor" (VObj c))
            | None => NoResult DanglingRef
            end
        | _ => Throw EngineTypeError h
        end
    end.
Proof.
  intros Ho Hc.
  assert (Hlt : o < length h) by (by eapply lookup_lt_Some).
  unfold Constructor, bind at 1, Typeof.
  assert (typeof h (VObj o) = "object") as ->.
  { unfold typeof, code_of. by rewrite Ho, Hc. }
  cbn [String.eqb Ascii.eqb Bool.eqb negb orb is_null].
  unfold bind at 1, HasOwnProperty. rewrite Ho.
  destruct (props_get (o_props ob) "constructor") as [pr|] eqn:Hpr.
  - unfold bind at 1.
    rewrite (Get_own h o "constructor" pr) by (unfold own_prop; by rewrite Ho).
    destruct (p_value pr) as [| | | | |c] eqn:Hv; try reflexivity.
    destruct (h !! c) as [oc|] eqn:Hoc.
    + unfold bind at 1. rewrite Put_obj by eauto.
      unfold bind at 1.
      rewrite (Get_own_value _ c "prototype" (VObj o))
        by (apply own_value_put_eq; eauto).
      unfold bind. rewrite Put_obj; [done|].
      apply put_is_Some; eauto.
    + unfold bind, Put. by rewrite Hoc.
  - unfold bind at 1, new_function.
    set (h0 := h ++ _).
    assert (Hk : is_Some (h0 !! length h)).
    { apply lookup_lt_is_Some. unfold h0. rewrite length_app. simpl. lia. }
    unfold bind at 1. rewrite Put_obj by done.
    unfold bind at 1.
    rewrite (Get_own_value _ (length h) "prototype" (VObj o))
      by (by apply own_value_put_eq).
    unfold bind. rewrite Put_obj; [done|].
    apply put_is_Some. apply lookup_lt_is_Some. unfold h0.
    rewrite length_app. lia.
Qed.

(** ** Reading through the prototype chain *)

Lemma Get_obj h l k :
  is_Some (h !! l) -> Get (VObj l) k h = Ret (get_value h l k) h.
Proof. intros [o Ho]. unfold Get, get_value. by rewrite Ho. Qed.

Lemma get_value_own h l k v :
  own_value h l k = Some v -> get_value h l k = v.
Proof.
  intros Hv. pose proof (Get_own_value _ _ _ _ Hv) as HG.
  rewrite Get_obj in HG; [by injection HG|].
  unfold own_value, own_prop in Hv. destruct (h !! l); [eauto | done].
Qed.

Lemma get_value_put_key_ne h l k x l' k' :
  k <> k' -> get_value (put h l k x) l' k' = get_value h l' k'.
Proof.
  intros Hk. unfold get_value.
  by rewrite put_length, lookup_chain_put_key_ne.
Qed.

(** ** The copy loop as a heap transformer *)

Lemma copy_step_length from to h k : length (copy_step from to h k) = length h.
Proof.
  unfold copy_step. destruct (own_prop h from k); [apply put_length|done].
Qed.

Lemma copy_steps_length from to ks h :
  length (fold_left (copy_step from to) ks h) = length h.
Proof.
  revert h. induction ks as [|k ks IH]; intros h; [done|].
  simpl. by rewrite IH, copy_step_length.
Qed.

Lemma for_each_copy from to ks h :
  is_Some (h !! from) -> is_Some (h !! to) ->
  for_each ks (fun k =>
      own <- HasOwnProperty (VObj from) k ;;
      if own : bool then (v <- Get (VObj from) k ;; Put (VObj to) k v)
      else ret tt) h
  = Ret tt (fold_left (copy_step from to) ks h).
Proof.
  revert h. induction ks as [|k ks IH]; intros h Hf Ht; [done|].
  simpl. unfold bind at 1. unfold bind at 1, HasOwnProperty.
  destruct Hf as [ob Hof]. rewrite Hof.
  assert (Hstep : forall h1 : heap, length h1 = length h ->
            is_Some (h1 !! from) /\ is_Some (h1 !! to)).
  { intros h1 Hlen. rewrite !lookup_lt_is_Some, Hlen.
    rewrite <- !lookup_lt_is_Some. eauto. }
  unfold copy_step at 2, own_prop. rewrite Hof.
  destruct (props_get (o_props ob) k) as [pr|] eqn:Hpr.
  - unfold bind at 1.
    rewrite (Get_own h from k pr) by (unfold own_prop; by rewrite Hof).
    rewrite Put_obj by done.
    apply IH; apply Hstep, put_length.
  - apply IH; eauto.
Qed.

Lemma copy_own_obj from to h :
  is_Some (h !! from) -> is_Some (h !! to) ->
  copy_own (VObj from) (VObj to) h = Ret tt (copy_into h from to).
Proof.
  intros Hf Ht. unfold copy_own. unfold bind at 1. unfold ForInKeys.
  by apply for_each_copy.
Qed.

Lemma copy_into_length h from to : length (copy_into h from to) = length h.
Proof. apply copy_steps_length. Qed.

#[local] Hint Rewrite copy_step_length copy_steps_length copy_into_length
  : heap_len.

(** The loop writes to [to] only, and only to its properties. *)
Lemma copy_steps_lookup_ne from to ks h l :
  l <> to -> fold_left (copy_step from to) ks h !! l = h !! l.
Proof.
  intros Hl. revert h. induction ks as [|k ks IH]; intros h; [done|].
  simpl. rewrite IH. unfold copy_step.
  destruct (own_prop h from k); [by apply put_lookup_ne | done].
Qed.

Lemma copy_steps_code from to ks h v :
  code_of (fold_left (copy_step from to) ks h) v = code_of h v.
Proof.
  revert h. induction ks as [|k ks IH]; intros h; [done|].
  simpl. rewrite IH. unfold copy_step.
  destruct (own_prop h from k); [apply code_of_put | done].
Qed.

Lemma copy_steps_proto from to ks h l :
  proto_of (fold_left (copy_step from to) ks h) l = proto_of h l.
Proof.
  revert h. induction ks as [|k ks IH]; intros h; [done|].
  simpl. rewrite IH. unfold copy_step.
  destruct (own_prop h from k); [apply proto_of_put | done].
Qed.


Lemma copy_own_any from to h :
  is_Some (h !! to) ->
  copy_own (VObj from) (VObj to) h = Ret tt (copy_into h from to).
Proof.
  intros Ht. destruct (h !! from) as [ob|] eqn:Hf.
  - apply copy_own_obj; eauto.
  - unfold copy_own, copy_into. unfold bind at 1. unfold ForInKeys.
    assert (for_in_keys (length h) h from [] = []) as ->; [|done].
    destruct (length h); simpl; [done|]. by rewrite Hf.
Qed.

(** ** [extend_build] as a heap transformer *)

Lemma copied_length h k P ty : length (copied h k P ty) = length h.
Proof.
  unfold copied. destruct (String.eqb ty "object"); [|done].
  destruct (get_value h k "prototype"); try done. apply copy_into_length.
Qed.

#[local] Hint Rewrite copied_length : heap_len.

Lemma extend_build_eq (h : heap) f s k ty :
  is_Some (h !! s) -> is_Some (h !! k) -> code_of h (VObj f) = Some LinkFn ->
  extend_build (VObj f) (VObj s) (VObj k) ty h
  = Ret (VObj k) (built_heap h f s k ty).
Proof.
  intros Hs Hk Hf.
  assert (Hfl : f < length h) by (by eapply code_of_Some_lt).
  apply lookup_lt_is_Some in Hs as Hsl. apply lookup_lt_is_Some in Hk as Hkl.
  unfold extend_build, built_heap.
  set (h3 := put h k "parent" (VObj f)).
  assert (Hl3 : length h3 = length h) by apply put_length.
  set (st := get_value h3 s "prototype").
  set (h4 := put h3 f "prototype" st).
  assert (Hl4 : length h4 = length h) by (unfold h4; by rewrite put_length).
  set (h5 := h4 ++ _).
  assert (Hl5 : length h5 = S (length h)).
  { unfold h5. rewrite length_app, Hl4. simpl. lia. }
  unfold bind at 1. rewrite Put_obj by done. fold h3.
  unfold bind at 1. rewrite Get_obj by (apply lookup_lt_is_Some; lia). fold st.
  unfold bind at 1. rewrite Put_obj by (apply lookup_lt_is_Some; lia). fold h4.
  unfold bind at 1. unfold construct at 1.
  assert (code_of h4 (VObj f) = Some LinkFn) as ->.
  { unfold h4, h3. by rewrite !code_of_put. }
  cbn [constructible]. unfold bind at 1.
  rewrite (Get_own_value h4 f "prototype" st).
  2:{ unfold h4. apply own_value_put_eq. apply lookup_lt_is_Some. lia. }
  unfold bind at 1, alloc at 1.
  assert (h4 ++ [Obj match st with
                     | VObj l => Some l
                     | _ => Some ObjectPrototype
                     end None []] = h5) as ->.
  { unfold h5. by destruct st. }
  unfold bind at 1, ret at 1. unfold ret at 1. rewrite Hl4.
  set (P := length h).
  assert (HP5 : is_Some (h5 !! P)) by (apply lookup_lt_is_Some; lia).
  assert (Hk5 : is_Some (h5 !! k)) by (apply lookup_lt_is_Some; lia).
  unfold bind at 1.
  assert ((if String.eqb ty "object"
           then proto <- Get (VObj k) "prototype";; copy_own proto (VObj P)
           else ret ()) h5 = Ret tt (copied h5 k P ty)) as ->.
  { unfold copied. destruct (String.eqb ty "object"); [|done].
    unfold bind. rewrite Get_obj by done.
    destruct (get_value h5 k "prototype"); try done.
    by apply copy_own_any. }
  set (h6 := copied h5 k P ty).
  assert (Hl6 : length h6 = S (length h)).
  { unfold h6. by rewrite copied_length. }
  unfold bind at 1. rewrite Put_obj by (apply lookup_lt_is_Some; lia).
  set (h7 := put h6 P "constructor" (VObj k)).
  assert (Hl7 : length h7 = S P) by (unfold h7; by rewrite put_length).
  unfold bind at 1, new_function at 1. rewrite Hl7.
  set (h8 := h7 ++ _).
  assert (Hl8 : length h8 = S (S (S P))).
  { unfold h8. rewrite length_app, Hl7. simpl. lia. }
  unfold bind at 1. rewrite Put_obj by (apply lookup_lt_is_Some; lia).
  unfold bind at 1. rewrite Put_obj; [done|].
  apply put_is_Some. apply lookup_lt_is_Some. lia.
Qed.

Lemma copied_lookup_ne h k P ty l : l <> P -> copied h k P ty !! l = h !! l.
Proof.
  intros Hl. unfold copied. destruct (String.eqb ty "object"); [|done].
  destruct (get_value h k "prototype"); try done.
  by apply copy_steps_lookup_ne.
Qed.

Lemma copied_code h k P ty v : code_of (copied h k P ty) v = code_of h v.
Proof.
  unfold copied. destruct (String.eqb ty "object"); [|done].
  destruct (get_value h k "prototype"); try done. apply copy_steps_code.
Qed.

Lemma copied_proto h k P ty l : proto_of (copied h k P ty) l = proto_of h l.
Proof.
  unfold copied. destruct (String.eqb ty "object"); [|done].
  destruct (get_value h k "prototype"); try done. apply copy_steps_proto.
Qed.

Lemma own_prop_lookup_eq (h h' : heap) l l' k :
  h !! l = h' !! l' -> own_prop h l k = own_prop h' l' k.
Proof. unfold own_prop. by intros ->. Qed.

Lemma own_value_lookup_eq (h h' : heap) l l' k :
  h !! l = h' !! l' -> own_value h l k = own_value h' l' k.
Proof.
  unfold own_value. intros H. by rewrite (own_prop_lookup_eq _ _ _ _ _ H).
Qed.

Lemma own_value_copied_ne h k P ty l key :
  l <> P -> own_value (copied h k P ty) l key = own_value h l key.
Proof. intros Hl. apply own_value_lookup_eq. by apply copied_lookup_ne. Qed.

Section Built.
Variables (h : heap) (f s k : loc) (ty : string).
Hypothesis Hf : f < length h.
Hypothesis Hs : s < length h.
Hypothesis Hk : k < length h.

Lemma built_length : length (built_heap h f s k ty) = S (S (S (length h))).
Proof using All. unfold built_heap. len. Qed.

Lemma built_parent :
  own_value (built_heap h f s k ty) k "parent" = Some (VObj f).
Proof using All.
  unfold built_heap.
  rewrite own_value_put_ne by (right; done).
  rewrite own_value_put_ne by (left; lia).
  rewrite own_value_app by len.
  rewrite own_value_put_ne by (left; lia).
  rewrite own_value_copied_ne by lia.
  rewrite own_value_app by len.
  rewrite own_value_put_ne by (right; done).
  apply own_value_put_eq. apply lookup_lt_is_Some. lia.
Qed.

Lemma built_prototype :
  own_value (built_heap h f s k ty) k "prototype" = Some (VObj (length h)).
Proof using All.
  unfold built_heap. apply own_value_put_eq.
  apply lookup_lt_is_Some. len.
Qed.

Lemma built_constructor :
  own_value (built_heap h f s k ty) (length h) "constructor"
  = Some (VObj k).
Proof using All.
  unfold built_heap.
  rewrite own_value_put_ne by (left; lia).
  rewrite own_value_put_ne by (right; done).
  rewrite own_value_app by len.
  apply own_value_put_eq. apply lookup_lt_is_Some. len.
Qed.

Lemma built_parent_method :
  own_value (built_heap h f s k ty) (length h) "parent"
  = Some (VObj (S (length h))).
Proof using All.
  unfold built_heap.
  rewrite own_value_put_ne by (left; lia).
  apply own_value_put_eq. apply lookup_lt_is_Some. len.
Qed.

Lemma built_parent_code :
  code_of (built_heap h f s k ty) (VObj (S (length h))) = Some ParentFn.
Proof using All.
  unfold built_heap. rewrite !code_of_put. unfold code_of.
  rewrite lookup_app_r by len.
  match goal with |- context [?a - ?b] =>
    replace (a - b) with 0 by len end.
  done.
Qed.

Lemma built_link_prototype :
  f <> k ->
  own_value (built_heap h f s k ty) f "prototype"
  = Some (get_value h s "prototype").
Proof using All.
  intros Hfk. unfold built_heap.
  rewrite own_value_put_ne by (left; congruence).
  rewrite own_value_put_ne by (left; lia).
  rewrite own_value_app by len.
  rewrite own_value_put_ne by (left; lia).
  rewrite own_value_copied_ne by lia.
  rewrite own_value_app by len.
  rewrite get_value_put_key_ne by done.
  apply own_value_put_eq. apply lookup_lt_is_Some. len.
Qed.

Lemma built_code l :
  l < length h ->
  code_of (built_heap h f s k ty) (VObj l) = code_of h (VObj l).
Proof using All.
  intros Hl. unfold built_heap. rewrite !code_of_put.
  rewrite code_of_app by len. rewrite code_of_put, copied_code.
  rewrite code_of_app by len. by rewrite !code_of_put.
Qed.



(** Of the objects that existed before, only the target constructor and
    the link function are written to. *)
Lemma built_frame l :
  l < length h -> l <> k -> l <> f -> (built_heap h f s k ty) !! l = h !! l.
Proof using All.
  intros Hl Hlk Hlf. unfold built_heap.
  rewrite put_lookup_ne by congruence.
  rewrite put_lookup_ne by lia.
  rewrite lookup_app_l by len.
  rewrite put_lookup_ne by lia.
  rewrite copied_lookup_ne by lia.
  rewrite lookup_app_l by len.
  rewrite put_lookup_ne by congruence.
  by rewrite put_lookup_ne by congruence.
Qed.

(** A callable target: nothing is copied, the new prototype holds the two
    properties [extend] assigns and nothing else. *)
Lemma built_template_callable :
  String.eqb ty "object" = false ->
  (built_heap h f s k ty) !! (length h)
  = Some (Obj (Some (default_proto (get_value h s "prototype"))) None
                      [("constructor", Prop_ (VObj k) true);
                       ("parent", Prop_ (VObj (S (length h))) true)]).
Proof using All.
  intros Hty. unfold built_heap, copied. rewrite Hty.
  rewrite put_lookup_ne by lia.
  set (h4 := put (put h k "parent" (VObj f)) f "prototype" _).
  assert (Hl4 : length h4 = length h) by (unfold h4; len).
  set (o5 := Obj _ None []).
  assert (H5 : (h4 ++ [o5]) !! (length h) = Some o5).
  { rewrite lookup_app_r by lia.
    replace ((length h) - length h4) with 0 by lia. done. }
  pose proof (put_lookup_eq _ _ "constructor" (VObj k) _ H5) as H7.
  set (h7 := put (h4 ++ [o5]) (length h) "constructor" (VObj k)) in *.
  set (t8 := [function_object ParentFn (S (S (length h)));
              prototype_object (S (length h))]).
  assert (H8 : (h7 ++ t8) !! (length h) = Some (with_props o5
                 (props_set (o_props o5) "constructor" (VObj k)))).
  { rewrite lookup_app_l; [done|]. unfold h7. len. }
  rewrite (put_lookup_eq _ _ _ _ _ H8). unfold o5. simpl.
  by rewrite get_value_put_key_ne.
Qed.

End Built.

(** ** What a successful [Constructor] call on an object specification does *)

Lemma typeof_object_inv h v :
  typeof h v = "object" ->
  v = VNull \/ exists o, v = VObj o /\ code_of h v = None.
Proof.
  destruct v; simpl; try done; [by left|].
  destruct (match h !! l with Some o => o_code o | None => None end) eqn:E;
    [done|]. right. eauto.
Qed.

Lemma Constructor_Ret_inv v h r h1 :
  Constructor v h = Ret r h1 ->
  (typeof h v = "function" /\ r = v /\ h1 = h)
  \/ (exists o c, v = VObj o /\ typeof h v = "object" /\ is_Some (h !! o)
                  /\ r = VObj c /\ normalizes h o c h1).
Proof.
  intros HC. destruct v as [| | | | |o];
    try (by apply Constructor_primitive_not_Ret in HC).
  destruct (h !! o) as [ob|] eqn:Ho.
  - destruct (o_code ob) as [c|] eqn:Hc.
    + left. assert (Ht : typeof h (VObj o) = "function").
      { unfold typeof, code_of. by rewrite Ho, Hc. }
      rewrite Constructor_function in HC by done. by injection HC as <- <-.
    + right. rewrite (Constructor_object _ _ _ Ho Hc) in HC.
      assert (Ht : typeof h (VObj o) = "object").
      { unfold typeof, code_of. by rewrite Ho, Hc. }
      destruct (props_get (o_props ob) "constructor") as [pr|] eqn:Hpr.
      * destruct (p_value pr) as [| | | | |c] eqn:Hv; try done.
        destruct (h !! c) as [oc|] eqn:Hoc; [|done].
        injection HC as <- <-. exists o, c. repeat split; eauto.
        eapply norm_reuse; eauto. unfold own_prop. by rewrite Ho.
      * simpl in HC. injection HC as <- <-.
        exists o, (length h). repeat split; eauto.
        apply norm_fresh. unfold own_prop. by rewrite Ho.
  - exfalso. unfold Constructor, bind, Typeof, typeof, code_of in HC.
    rewrite Ho in HC. simpl in HC. unfold HasOwnProperty in HC.
    by rewrite Ho in HC.
Qed.

Section Normalizes.
Variables (h : heap) (o c : loc) (h1 : heap).
Hypothesis Ho : o < length h.
Hypothesis HN : normalizes h o c h1.

Lemma normalizes_length : length h <= length h1.
Proof using All. destruct HN; len. Qed.

Lemma normalizes_result : c < length h1.
Proof using All.
  destruct HN as [|c pr ? ? Hc]; len.
  apply lookup_lt_is_Some in Hc. lia.
Qed.

Lemma normalizes_code l :
  l < length h -> code_of h1 (VObj l) = code_of h (VObj l).
Proof using All.
  intros Hl. destruct HN; rewrite !code_of_put; [|done].
  by rewrite code_of_app.
Qed.

Lemma normalizes_prototype : own_value h1 c "prototype" = Some (VObj o).
Proof using All.
  destruct HN as [|c pr ? ? Hc].
  - destruct (decide (o = length h)) as [->|Hne]; [lia|].
    rewrite own_value_put_ne by (right; done).
    apply own_value_put_eq. apply lookup_lt_is_Some. len.
  - rewrite own_value_put_ne by (right; done).
    by apply own_value_put_eq.
Qed.

Lemma normalizes_constructor : own_value h1 o "constructor" = Some (VObj c).
Proof using All.
  destruct HN as [|c pr ? ? Hc]; apply own_value_put_eq;
    apply lookup_lt_is_Some; len.
Qed.

(** Apart from the specification and the constructor it names, every
    object that existed before is as it was. *)
Lemma normalizes_frame l :
  l < length h -> l <> o -> l <> c -> h1 !! l = h !! l.
Proof using All.
  intros Hl Hlo Hlc. destruct HN as [|c pr ? ? Hc].
  - rewrite !put_lookup_ne by congruence. by apply lookup_app_l.
  - by rewrite !put_lookup_ne by congruence.
Qed.

(** The specification keeps every property but [constructor] (and
    [prototype], when it names itself as its constructor). *)
Lemma normalizes_spec_props k :
  k <> "constructor" -> (o <> c \/ k <> "prototype") ->
  own_prop h1 o k = own_prop h o k.
Proof using All.
  intros Hk1 Hk2. destruct HN as [|c pr ? ? Hc].
  - rewrite own_prop_put_ne by (right; congruence).
    rewrite own_prop_put_ne by (left; lia). by apply own_prop_app.
  - rewrite own_prop_put_ne by (right; congruence).
    rewrite own_prop_put_ne; [done|].
    destruct Hk2; [left | right]; congruence.
Qed.

End Normalizes.

Lemma pass_through_Ret_inv ty v h r h1 :
  pass_through ty v h = Ret r h1 ->
  (r = v /\ h1 = h /\ (ty = "function" \/ typeof h v = "function"))
  \/ (ty <> "function" /\
      exists o c, v = VObj o /\ typeof h v = "object" /\ is_Some (h !! o)
                  /\ r = VObj c /\ normalizes h o c h1).
Proof.
  unfold pass_through. destruct (String.eqb ty "function") eqn:E; simpl.
  - apply String.eqb_eq in E. intros [= <- <-]. left. eauto.
  - apply String.eqb_neq in E. intros HC.
    apply Constructor_Ret_inv in HC as [(? & ? & ?)|HC]; [left|right]; eauto.
Qed.

Lemma pass_through_Throw_inv ty v h e h1 :
  pass_through ty v h = Throw e h1 -> h1 = h.
Proof.
  unfold pass_through. destruct (negb (String.eqb ty "function")); [|done].
  intros HC. destruct v as [| | | | |o].
  1-5: by apply Constructor_primitive_Throw in HC as [? _].
  destruct (h !! o) as [ob|] eqn:Ho.
  - destruct (o_code ob) as [c|] eqn:Hc.
    + rewrite Constructor_function in HC; [done|].
      unfold typeof, code_of. by rewrite Ho, Hc.
    + rewrite (Constructor_object _ _ _ Ho Hc) in HC.
      destruct (props_get (o_props ob) "constructor") as [pr|]; [|done].
      destruct (p_value pr) as [| | | | |c']; try congruence.
      by destruct (h !! c').
  - unfold Constructor, bind, Typeof, typeof, code_of in HC.
    rewrite Ho in HC. simpl in HC. unfold HasOwnProperty in HC.
    by rewrite Ho in HC.
Qed.

(** ** [extend] step by step *)

Lemma extend_unfold args h :
  extend args h
  = let source := nth 0 args VUndef in
    let target := nth 1 args VUndef in
    let h0 := entry_heap h in
    if Nat.ltb (length args) 2 then Throw ArgumentCount h0
    else
      (newSource <- pass_through (typeof h0 source) source ;;
       newConstructor <- pass_through (typeof h0 target) target ;;
       extend_build (VObj (length h)) newSource newConstructor
                    (typeof h0 target)) h0.
Proof.
  unfold extend. unfold bind at 1. unfold new_function. fold (entry_heap h).
  cbv zeta. destruct (Nat.ltb (length args) 2); reflexivity.
Qed.

Lemma entry_length h : length (entry_heap h) = S (S (length h)).
Proof. unfold entry_heap. len. Qed.

Lemma entry_link_code h :
  code_of (entry_heap h) (VObj (length h)) = Some LinkFn.
Proof.
  unfold entry_heap, code_of. rewrite lookup_app_r by lia.
  by replace (length h - length h) with 0 by lia.
Qed.

Lemma pass_through_result ty v (h : heap) r h1 :
  pass_through ty v h = Ret r h1 ->
  (ty = "function" -> typeof h v = "function") ->
  exists c, r = VObj c /\ c < length h1 /\ length h <= length h1
            /\ forall l, l < length h ->
                         code_of h1 (VObj l) = code_of h (VObj l).
Proof.
  intros HP Hty.
  apply pass_through_Ret_inv in HP
    as [(-> & -> & Hf)|(_ & o & c & -> & _ & Ho & -> & HN)].
  - assert (Hfun : typeof h v = "function") by (destruct Hf; eauto).
    apply typeof_function in Hfun as [cd Hcd].
    destruct v as [| | | | |c]; try done. exists c.
    apply code_of_Some_lt in Hcd. eauto.
  - apply lookup_lt_is_Some in Ho. exists c. split; [done|].
    split; [exact (normalizes_result _ _ _ _ Ho HN)|].
    split; [exact (normalizes_length _ _ _ _ Ho HN)|].
    intros l Hl. exact (normalizes_code _ _ _ _ Ho HN l Hl).
Qed.

Lemma typeof_code_eq (h h' : heap) v :
  code_of h' v = code_of h v -> typeof h' v = typeof h v.
Proof. destruct v; try done. unfold typeof. by intros ->. Qed.

(** A successful call: both specifications are normalized in turn, then the
    link is built on the resulting heap. *)
Lemma extend_Ret_inv args h K h' :
  extend args h = Ret K h' ->
  let source := nth 0 args VUndef in
  let target := nth 1 args VUndef in
  let h0 := entry_heap h in
  let f := length h in
  2 <= length args /\
  exists s k h1 h2,
    pass_through (typeof h0 source) source h0 = Ret (VObj s) h1
    /\ pass_through (typeof h0 target) target h1 = Ret (VObj k) h2
    /\ s < length h2 /\ k < length h2 /\ f < length h2
    /\ length h0 <= length h1 /\ length h1 <= length h2
    /\ code_of h2 (VObj f) = Some LinkFn
    /\ K = VObj k
    /\ h' = built_heap h2 f s k (typeof h0 target).
Proof.
  intros HE source target h0 f. rewrite extend_unfold in HE. cbv zeta in HE.
  fold source target h0 in HE.
  destruct (Nat.ltb (length args) 2) eqn:Hlen; [done|].
  apply Nat.ltb_ge in Hlen. split; [done|].
  apply bind_Ret in HE as (ns & h1 & HS & HE).
  apply bind_Ret in HE as (nc & h2 & HT & HE).
  pose proof (entry_length h) as Hl0. fold h0 in Hl0.
  destruct (pass_through_result _ _ _ _ _ HS) as (s & -> & Hs & Hl1 & Hc1);
    [done|].
  assert (Hf1 : code_of h1 (VObj f) = Some LinkFn).
  { rewrite Hc1 by (unfold f; lia). apply entry_link_code. }
  destruct (pass_through_result _ _ _ _ _ HT) as (k & -> & Hk & Hl2 & Hc2).
  { intros Hty. rewrite <- Hty. apply typeof_code_eq.
    rewrite Hty in HT. pose proof Hty as Hty'.
    apply typeof_function in Hty' as [cd Hcd].
    destruct target as [| | | | |t]; try done.
    apply Hc1. by eapply code_of_Some_lt. }
  assert (Hf2 : code_of h2 (VObj f) = Some LinkFn).
  { rewrite Hc2; [done|]. by eapply code_of_Some_lt. }
  rewrite extend_build_eq in HE.
  - injection HE as <- <-. exists s, k, h1, h2.
    repeat split; try done; lia.
  - apply lookup_lt_is_Some. lia.
  - by apply lookup_lt_is_Some.
  - exact Hf2.
Qed.

(** A failing call stops at the argument check or inside one of the two
    normalizations. *)
Lemma extend_Throw_inv args h e h' :
  extend args h = Throw e h' ->
  let source := nth 0 args VUndef in
  let target := nth 1 args VUndef in
  let h0 := entry_heap h in
  (length args < 2 /\ e = ArgumentCount /\ h' = h0)
  \/ (2 <= length args /\
      pass_through (typeof h0 source) source h0 = Throw e h0 /\ h' = h0)
  \/ (2 <= length args /\ exists ns,
        pass_through (typeof h0 source) source h0 = Ret ns h'
        /\ pass_through (typeof h0 target) target h' = Throw e h').
Proof.
  intros HE source target h0. rewrite extend_unfold in HE. cbv zeta in HE.
  fold source target h0 in HE.
  destruct (Nat.ltb (length args) 2) eqn:Hlen.
  { apply Nat.ltb_lt in Hlen. injection HE as <- <-. by left. }
  apply Nat.ltb_ge in Hlen. right.
  apply bind_Throw in HE as [HS|(ns & h1 & HS & HE)].
  { left. pose proof (pass_through_Throw_inv _ _ _ _ _ HS) as ->. eauto. }
  right. split; [done|].
  apply bind_Throw in HE as [HT|(nc & h2 & HT & HE)].
  { pose proof (pass_through_Throw_inv _ _ _ _ _ HT) as ->. eauto. }
  exfalso.
  pose proof (entry_length h) as Hl0. fold h0 in Hl0.
  destruct (pass_through_result _ _ _ _ _ HS) as (s & -> & Hs & Hl1 & Hc1);
    [done|].
  destruct (pass_through_result _ _ _ _ _ HT) as (k & -> & Hk & Hl2 & Hc2).
  { intros Hty. rewrite <- Hty. apply typeof_code_eq.
    pose proof Hty as Hty'.
    apply typeof_function in Hty' as [cd Hcd].
    destruct target as [| | | | |t]; try done.
    apply Hc1. by eapply code_of_Some_lt. }
  rewrite extend_build_eq in HE; [done| | |].
  - apply lookup_lt_is_Some. lia.
  - by apply lookup_lt_is_Some.
  - rewrite Hc2 by lia. rewrite Hc1 by lia.
    unfold h0. by rewrite entry_link_code.
Qed.

Lemma props_set_id ps k v e :
  props_get ps k = Some (Prop_ v e) -> props_set ps k v = ps.
Proof.
  induction ps as [|[k' p] ps IH]; simpl; [done|].
  destruct (String.eqb k' k).
  - intros [= ->]. done.
  - intros H. by rewrite IH.
Qed.

Lemma put_id h l k v : own_value h l k = Some v -> put h l k v = h.
Proof.
  unfold own_value, own_prop, put. destruct (h !! l) as [o|] eqn:Ho; [|done].
  destruct (props_get (o_props o) k) as [[v' e]|] eqn:Hp; [|done].
  simpl. intros [= ->]. rewrite (props_set_id _ _ _ _ Hp).
  apply list_insert_id. rewrite Ho. by destruct o.
Qed.

Lemma Constructor_Throw_inv v h e h1 : Constructor v h = Throw e h1 -> h1 = h.
Proof.
  intros HC. apply (pass_through_Throw_inv "object" v h e h1). exact HC.
Qed.

(** The errors [Constructor] can end with. *)
Lemma Constructor_Throw_kinds v h e h1 :
  Constructor v h = Throw e h1 ->
  e = EngineTypeError
  \/ (exists m, e = ReferenceError (Constructor_error ++ m))
  \/ (exists m, e = TypeError (Constructor_error ++ m)).
Proof.
  intros HC. destruct v as [| | | | |o].
  1-5: apply Constructor_primitive_Throw in HC as (_ & _ & H); [by right|done].
  left. destruct (h !! o) as [ob|] eqn:Ho.
  - destruct (o_code ob) as [c|] eqn:Hc.
    + rewrite Constructor_function in HC; [done|].
      unfold typeof, code_of. by rewrite Ho, Hc.
    + rewrite (Constructor_object _ _ _ Ho Hc) in HC.
      destruct (props_get (o_props ob) "constructor") as [pr|]; [|done].
      destruct (p_value pr) as [| | | | |c']; try congruence.
      by destruct (h !! c').
  - unfold Constructor, bind, Typeof, typeof, code_of in HC.
    rewrite Ho in HC. simpl in HC. unfold HasOwnProperty in HC.
    by rewrite Ho in HC.
Qed.

Lemma Constructor_error_not_ArgumentCount m :
  TypeError (Constructor_error ++ m) <> ArgumentCount.
Proof.
  unfold ArgumentCount, Constructor_error, extend_error. simpl.
  intros H. discriminate H.
Qed.

Lemma pass_through_not_ArgumentCount ty v h e h1 :
  pass_through ty v h = Throw e h1 -> e <> ArgumentCount.
Proof.
  unfold pass_through. destruct (negb (String.eqb ty "function")); [|done].
  intros HC. apply Constructor_Throw_kinds in HC as [->|[[m ->]|[m ->]]];
    [done | done | apply Constructor_error_not_ArgumentCount].
Qed.


Lemma normalizes_typeof h o c h1 v :
  o < length h -> normalizes h o c h1 -> valid_ref h v = true ->
  typeof h1 v = typeof h v.
Proof.
  intros Ho HN Hv. destruct v as [| | | | |l]; try done.
  apply typeof_code_eq. eapply normalizes_code; eauto.
  simpl in Hv. by apply Nat.ltb_lt in Hv.
Qed.


(** ** Closed heaps *)

Lemma props_get_In ps k p : props_get ps k = Some p -> In (k, p) ps.
Proof.
  induction ps as [|[k' p'] ps IH]; simpl; [done|].
  destruct (String.eqb k' k) eqn:E.
  - apply String.eqb_eq in E. intros [= ->]. left. by subst.
  - intros H. right. by apply IH.
Qed.

Lemma closed_own_value (h : heap) l k v :
  closed_heap h = true -> own_value h l k = Some v -> valid_ref h v = true.
Proof.
  unfold closed_heap, own_value, own_prop. intros Hc Hv.
  destruct (h !! l) as [o|] eqn:Ho; [|done].
  destruct (props_get (o_props o) k) as [p|] eqn:Hp; [|done].
  simpl in Hv. injection Hv as <-.
  rewrite forallb_forall in Hc.
  assert (Hin : In o h).
  { apply list_elem_of_In. by eapply list_elem_of_lookup_2. }
  specialize (Hc o Hin). apply andb_true_iff in Hc as [Hc _].
  rewrite forallb_forall in Hc.
  exact (Hc (k, p) (props_get_In _ _ _ Hp)).
Qed.

Lemma valid_ref_obj (h : heap) l : valid_ref h (VObj l) = true <-> l < length h.
Proof. unfold valid_ref. apply Nat.ltb_lt. Qed.

Lemma normalizes_constructor_other h o c h1 l :
  normalizes h o c h1 -> l < length h -> l <> o ->
  own_value h1 l "constructor" = own_value h l "constructor".
Proof.
  intros HN Hl Hlo. destruct HN.
  - rewrite own_value_put_ne by (left; congruence).
    rewrite own_value_put_ne by (right; done).
    by apply own_value_app.
  - rewrite own_value_put_ne by (left; congruence).
    by rewrite own_value_put_ne by (right; done).
Qed.

Lemma entry_link_unnamed h :
  closed_heap h = true -> link_unnamed h (entry_heap h).
Proof.
  intros Hc l c Hl Hv. unfold entry_heap in Hv.
  rewrite own_value_app in Hv by done.
  apply (closed_own_value _ _ _ _ Hc), valid_ref_obj in Hv. lia.
Qed.

Lemma pass_through_not_link (h : heap) ty v h0 r h1 :
  link_unnamed h h0 -> length h < length h0 -> valid_ref h v = true ->
  pass_through ty v h0 = Ret (VObj r) h1 ->
  r <> length h /\ link_unnamed h h1.
Proof.
  intros HQ Hlen Hv HP.
  apply pass_through_Ret_inv in HP
    as [([= <-] & -> & _)|(_ & o & c & -> & _ & Ho & [= ->] & HN)].
  - apply valid_ref_obj in Hv. split; [lia | done].
  - apply valid_ref_obj in Hv. apply lookup_lt_is_Some in Ho.
    assert (Hc : c <> length h).
    { destruct HN as [|c pr Hsome Hpv _]; [lia|].
      apply (HQ o c Hv). unfold own_value. by rewrite Hsome, <- Hpv. }
    split; [done|]. intros l c' Hl Hown.
    destruct (decide (l = o)) as [->|Hlo].
    + rewrite (normalizes_constructor _ _ _ _ Ho HN) in Hown. congruence.
    + rewrite (normalizes_constructor_other _ _ _ _ _ HN) in Hown
        by (done || lia).
      by apply (HQ l c').
Qed.

Lemma lookup_chain_lookup_eq (h : heap) n l k o :
  h !! l = Some o ->
  lookup_chain (S n) h l k
  = match props_get (o_props o) k with
    | Some p => Some p
    | None => match o_proto o with
              | Some l' => lookup_chain n h l' k
              | None => None
              end
    end.
Proof. intros Ho. simpl. by rewrite Ho. Qed.

(** ** The keys of a [for-in] loop *)

Lemma mem_app k ks1 ks2 : mem k (ks1 ++ ks2) = mem k ks1 || mem k ks2.
Proof. unfold mem. apply existsb_app. Qed.

Lemma mem_enumerable_own ps key pr seen :
  props_get ps key = Some pr -> p_enum pr = true -> mem key seen = false ->
  mem key (map fst (List.filter
                      (fun kp => p_enum (snd kp) && negb (mem (fst kp) seen))
                      ps)) = true.
Proof.
  intros Hg He Hs. induction ps as [|[k' p'] ps IH]; simpl in *; [done|].
  destruct (String.eqb k' key) eqn:E.
  - apply String.eqb_eq in E. subst k'. injection Hg as ->.
    rewrite He, Hs. simpl. by rewrite String.eqb_refl.
  - destruct (p_enum p' && negb (mem k' seen)); simpl; rewrite ?IH by done;
      [apply orb_true_r | done].
Qed.

Lemma for_in_keys_own (h : heap) l key pr n :
  own_prop h l key = Some pr -> p_enum pr = true ->
  mem key (for_in_keys (S n) h l []) = true.
Proof.
  unfold own_prop. intros Hp He. cbn [for_in_keys].
  destruct (h !! l) as [o|]; [|done].
  rewrite mem_app, (mem_enumerable_own _ _ _ _ Hp He); done.
Qed.

(** ** [parent] on a wired constructor *)

Lemma parent_split cb this args h :
  parent cb this args h
  = match parent_setup cb this h with
    | Ret (p, pc) h1 =>
        (Apply cb pc p args ;;; copy_own p this ;;;
         Put this "parent" p ;;; ret this) h1
    | Throw e h1 => Throw e h1
    | NoResult w => NoResult w
    end.
Proof.
  unfold parent, parent_setup, bind.
  destruct (Get this "constructor" h) as [c h1| |]; [|done..].
  destruct (Get c "parent" h1) as [pa h2| |]; [|done..].
  destruct (construct _ pa h2) as [p h3| |]; [|done..].
  by destruct (Get p "constructor" h3).
Qed.

Lemma wired_app (h t : heap) k f tmpl :
  wired h k f tmpl -> wired (h ++ t) k f tmpl.
Proof.
  intros [Hp Hl Ht].
  assert (Hk : k < length h).
  { unfold own_value, own_prop in Hp. destruct (h !! k) eqn:E; [|done].
    by eapply lookup_lt_Some. }
  pose proof (code_of_Some_lt _ _ _ Hl) as Hf.
  split; [by rewrite own_value_app | by rewrite code_of_app
         | by rewrite own_value_app].
Qed.

Lemma parent_setup_wired user n (h : heap) i k f tmpl :
  wired h k f tmpl ->
  Get (VObj i) "constructor" h = Ret (VObj k) h ->
  parent_setup (call user (S n)) (VObj i) h
  = Ret (VObj (length h),
         get_value (h ++ [link_instance tmpl]) (length h) "constructor")
        (h ++ [link_instance tmpl]).
Proof.
  intros [Hp Hl Ht] Hc. unfold parent_setup.
  unfold bind at 1. rewrite Hc.
  unfold bind at 1. rewrite (Get_own_value _ _ _ _ Hp).
  unfold bind at 1. unfold construct. rewrite Hl. cbn [constructible].
  unfold bind at 1. rewrite (Get_own_value _ _ _ _ Ht).
  unfold bind at 1, alloc.
  assert (Obj match tmpl with
              | VObj l => Some l
              | _ => Some ObjectPrototype
              end None [] = link_instance tmpl) as ->.
  { unfold link_instance. by destruct tmpl. }
  pose proof (code_of_Some_lt _ _ _ Hl) as Hf.
  unfold bind at 1.
  assert (call user (S n) (VObj f) (VObj (length h)) []
               (h ++ [link_instance tmpl])
          = Ret VUndef (h ++ [link_instance tmpl])) as ->.
  { cbn [call]. rewrite code_of_app by done. by rewrite Hl. }
  unfold ret at 1. unfold bind, ret.
  rewrite Get_obj; [done|].
  apply lookup_lt_is_Some. rewrite length_app. simpl. lia.
Qed.



Lemma call_S user n f this args h :
  call user (S n) f this args h
  = match code_of h f with
    | None => Throw EngineTypeError h
    | Some NoopFn => Ret VUndef h
    | Some LinkFn => Ret VUndef h
    | Some ParentFn => parent (call user n) this args h
    | Some (UserFn id) => user id (call user n) this args h
    | Some (UserMethod id) => user id (call user n) this args h
    end.
Proof. reflexivity. Qed.


Lemma closed_proto (h : heap) l o l' :
  closed_heap h = true -> h !! l = Some o -> o_proto o = Some l' ->
  l' < length h.
Proof.
  unfold closed_heap. intros Hc Ho Hp. rewrite forallb_forall in Hc.
  assert (Hin : In o h).
  { apply list_elem_of_In. by eapply list_elem_of_lookup_2. }
  specialize (Hc o Hin). apply andb_true_iff in Hc as [_ Hc].
  rewrite Hp in Hc. by apply Nat.ltb_lt.
Qed.

(** In a closed heap a lookup does not leave the heap, so it does not see
    what is allocated later. *)
Lemma lookup_chain_closed_app (h t : heap) n l key :
  closed_heap h = true -> l < length h ->
  lookup_chain n (h ++ t) l key = lookup_chain n h l key.
Proof.
  intros Hc. revert l. induction n as [|n IH]; intros l Hl; [done|].
  cbn [lookup_chain]. rewrite lookup_app_l by done.
  destruct (h !! l) as [o|] eqn:Ho; [|done].
  destruct (props_get (o_props o) key); [done|].
  destruct (o_proto o) as [l'|] eqn:Hp; [|done].
  apply IH. by eapply closed_proto.
Qed.

Lemma get_value_link_instance (h : heap) tmpl key :
  get_value (h ++ [link_instance tmpl]) (length h) key
  = match lookup_chain (length h) (h ++ [link_instance tmpl])
                       (default_proto tmpl) key with
    | Some p => p_value p
    | None => VUndef
    end.
Proof.
  unfold get_value. rewrite length_app. cbn [length].
  replace (length h + 1) with (S (length h)) by lia.
  rewrite (lookup_chain_lookup_eq _ _ _ _ (link_instance tmpl)); [done|].
  rewrite lookup_app_r by lia.
  by replace (length h - length h) with 0 by lia.
Qed.

Lemma demo_extend :
  extend [VObj 2; VObj 4] demo_heap = Ret (VObj 5) demo_extended.
Proof. vm_compute. reflexivity. Qed.


(** The scenario of the specification: [new Target('x')], the body of
    [Target] calling [this.parent('x')] once: the instance ends with the
    fields of the source's initializer as its own, and [kind], which both
    templates define, has the source's value. *)
Example demo_new_target :
  New demo_code 3 (VObj 5) [VStr "x"] demo_extended = Ret (VObj 12) demo_done
  /\ Get (VObj 12) "kind" demo_done = Ret (VStr "source") demo_done
  /\ Get (VObj 12) "parent" demo_done = Ret (VObj 13) demo_done.
Proof. repeat split; vm_compute; reflexivity. Qed.

(** ** Objects made by [new K] for an extended constructor *)

(** A property an object does not have is read from its prototype. *)
Lemma Get_via_proto (h : heap) i o P key v :
  h !! i = Some o -> props_get (o_props o) key = None ->
  o_proto o = Some P -> own_value h P key = Some v ->
  Get (VObj i) key h = Ret v h.
Proof.
  intros Hi Hnone Hproto Hv. unfold Get. rewrite Hi.
  assert (HP : P < length h).
  { unfold own_value, own_prop in Hv. destruct (h !! P) eqn:E; [|done].
    by eapply lookup_lt_Some. }
  assert (HiP : i <> P).
  { intros ->. unfold own_value, own_prop in Hv. by rewrite Hi, Hnone in Hv. }
  apply lookup_lt_Some in Hi as Hil.
  destruct (length h) as [|[|n]] eqn:Hn; [lia | lia |].
  rewrite (lookup_chain_lookup_eq _ _ _ _ _ Hi), Hnone, Hproto.
  unfold own_value in Hv.
  destruct (own_prop h P key) as [pr|] eqn:Hp; [|done].
  rewrite (lookup_chain_own _ _ _ _ _ Hp). simpl in Hv. congruence.
Qed.

(** What [extend] establishes: on the heap it returns, the constructor is
    wired, and an object allocated with the new prototype resolves
    [constructor] to it and [parent] to the installed method. *)
Lemma extend_instance_ready (h : heap) (source target : value)
      (extra : list value) (k : loc) (h' : heap)
      (fields : list (string * prop)) :
  closed_heap h = true -> valid_ref h source = true ->
  valid_ref h target = true ->
  extend (source :: target :: extra) h = Ret (VObj k) h' ->
  props_get fields "constructor" = None ->
  props_get fields "parent" = None ->
  exists f tmpl P pm,
    own_value h' k "prototype" = Some (VObj P)
    /\ wired (h' ++ [Obj (Some P) None fields]) k f tmpl
    /\ Get (VObj (length h')) "constructor" (h' ++ [Obj (Some P) None fields])
       = Ret (VObj k) (h' ++ [Obj (Some P) None fields])
    /\ Get (VObj (length h')) "parent" (h' ++ [Obj (Some P) None fields])
       = Ret pm (h' ++ [Obj (Some P) None fields])
    /\ code_of (h' ++ [Obj (Some P) None fields]) pm = Some ParentFn.
Proof.
  intros Hclosed HS HT HE Hf1 Hf2.
  apply extend_Ret_inv in HE
    as (_ & s & k' & h1 & h2 & HPs & HPt & Hs & Hk & Hf & Hl1 & Hl2 & Hcode
        & [= <-] & ->).
  cbn [nth] in HPs, HPt |- *.
  pose proof (entry_length h) as Hl0.
  destruct (pass_through_not_link h _ _ _ _ _ (entry_link_unnamed h Hclosed)
              ltac:(lia) HS HPs) as [Hfs HQ1].
  destruct (pass_through_not_link h _ _ _ _ _ HQ1 ltac:(lia) HT HPt)
    as [Hfk _].
  set (ty := typeof (entry_heap h) target).
  pose proof (built_length h2 (length h) s k ty Hf Hs Hk) as Hlen.
  pose proof (built_prototype h2 (length h) s k ty Hf Hs Hk) as Hproto.
  pose proof (built_parent h2 (length h) s k ty Hf Hs Hk) as Hparent.
  pose proof (built_constructor h2 (length h) s k ty Hf Hs Hk) as Hback.
  pose proof (built_parent_method h2 (length h) s k ty Hf Hs Hk) as Hmeth.
  pose proof (built_parent_code h2 (length h) s k ty Hf Hs Hk) as Hmcode.
  pose proof (built_code h2 (length h) s k ty Hf Hs Hk (length h) Hf) as Hlink.
  pose proof (built_link_prototype h2 (length h) s k ty Hf Hs Hk
                ltac:(congruence)) as Htmpl.
  rewrite Hcode in Hlink.
  generalize dependent (built_heap h2 (length h) s k ty).
  intros bh Hlen Hproto Hparent Hback Hmeth Hmcode Hlink Htmpl.
  assert (Hi : (bh ++ [Obj (Some (length h2)) None fields]) !! length bh
               = Some (Obj (Some (length h2)) None fields)).
  { rewrite lookup_app_r by lia.
    by replace (length bh - length bh) with 0 by lia. }
  exists (length h), (get_value h2 s "prototype"), (length h2),
         (VObj (S (length h2))).
  split; [done|].
  split; [by apply wired_app|].
  split.
  { apply (Get_via_proto _ _ _ _ _ _ Hi Hf1 eq_refl).
    by rewrite own_value_app by lia. }
  split.
  { apply (Get_via_proto _ _ _ _ _ _ Hi Hf2 eq_refl).
    by rewrite own_value_app by lia. }
  by rewrite code_of_app by lia.
Qed.

(** * The properties of the specification *)




(** C2 (as stated, refuted): after [extend(Base, Base)] the link function
    [K.parent] has the prototype [Base] had before the call (object 3), while
    the prototype of [Base], the source, is the new object 6. *)
Lemma extend_self_link_template :
  extend [VObj 2; VObj 2] base_heap = Ret (VObj 2) base_self_extended
  /\ own_value base_self_extended 2 "parent" = Some (VObj 4)
  /\ Get (VObj 4) "prototype" base_self_extended
     = Ret (VObj 3) base_self_extended
  /\ Get (VObj 2) "prototype" base_self_extended
     = Ret (VObj 6) base_self_extended.
Proof. repeat split; vm_compute; reflexivity. Qed.

(** C2 (amended): on a closed heap, for a valid [source] and [target] on
    which [extend] succeeds, [K.parent] is a link function that did not exist
    before the call, so it is neither [source] nor the normalized source [s];
    its [prototype] is, by reference, the [prototype] the normalized source
    had when both specifications had been normalized; and that is still the
    [prototype] of the normalized source after the call when source and
    target normalize to different constructors and the normalized source has
    [prototype] as a property of its own, as a function made by a function
    declaration and a constructor made by [Constructor] have. *)
Theorem extend_links_source_template (h : heap) (source target : value)
        (extra : list value) (K : value) (h' : heap) :
  closed_heap h = true ->
  valid_ref h source = true -> valid_ref h target = true ->
  extend (source :: target :: extra) h = Ret K h' ->
  exists k f s tmpl h1 h2,
    K = VObj k
    /\ pass_through (typeof (entry_heap h) source) source (entry_heap h)
       = Ret (VObj s) h1
    /\ pass_through (typeof (entry_heap h) target) target h1 = Ret (VObj k) h2
    /\ own_value h' k "parent" = Some (VObj f)
    /\ code_of h' (VObj f) = Some LinkFn
    /\ h !! f = None
    /\ VObj f <> source /\ f <> s /\ f <> k
    /\ own_value h' f "prototype" = Some tmpl
    /\ Get (VObj s) "prototype" h2 = Ret tmpl h2
    /\ (s <> k -> is_Some (own_value h2 s "prototype") ->
        Get (VObj s) "prototype" h' = Ret tmpl h').
Proof.
  intros Hclosed HS HT HE.
  apply extend_Ret_inv in HE
    as (_ & s & k & h1 & h2 & HPs & HPt & Hs & Hk & Hf & Hl1 & Hl2 & Hcode
        & -> & ->).
  cbn [nth] in HPs, HPt |- *.
  pose proof (entry_length h) as Hl0.
  destruct (pass_through_not_link h _ _ _ _ _ (entry_link_unnamed h Hclosed)
              ltac:(lia) HS HPs) as [Hfs HQ1].
  destruct (pass_through_not_link h _ _ _ _ _ HQ1 ltac:(lia) HT HPt)
    as [Hfk _].
  exists k, (length h), s, (get_value h2 s "prototype"), h1, h2.
  split; [done|]. split; [done|]. split; [done|].
  split; [by apply built_parent|].
  split; [by rewrite built_code|].
  split; [by apply lookup_ge_None_2|].
  split.
  { intros <-. apply valid_ref_obj in HS. lia. }
  split; [congruence|]. split; [congruence|].
  split; [apply built_link_prototype; (done || congruence)|].
  split; [apply Get_obj, lookup_lt_is_Some; lia|].
  intros Hsk [x Hx].
  apply Get_own_value.
  rewrite (own_value_lookup_eq _ h2 s s).
  - rewrite Hx. f_equal. symmetry. by apply get_value_own.
  - apply built_frame; (done || congruence).
Qed.

(** [extend(Source, spec)] on [demo_heap]. *)
Lemma extend_links_source_template_demo :
  (closed_heap demo_heap = true
   /\ valid_ref demo_heap (VObj 2) = true
   /\ valid_ref demo_heap (VObj 4) = true
   /\ extend [VObj 2; VObj 4] demo_heap = Ret (VObj 5) demo_extended)
  /\ exists k f s tmpl h1 h2,
       VObj 5 = VObj k
       /\ pass_through (typeof (entry_heap demo_heap) (VObj 2)) (VObj 2)
                       (entry_heap demo_heap) = Ret (VObj s) h1
       /\ pass_through (typeof (entry_heap demo_heap) (VObj 4)) (VObj 4) h1
          = Ret (VObj k) h2
       /\ own_value demo_extended k "parent" = Some (VObj f)
       /\ code_of demo_extended (VObj f) = Some LinkFn
       /\ demo_heap !! f = None
       /\ VObj f <> VObj 2 /\ f <> s /\ f <> k
       /\ own_value demo_extended f "prototype" = Some tmpl
       /\ Get (VObj s) "prototype" h2 = Ret tmpl h2
       /\ (s <> k -> is_Some (own_value h2 s "prototype") ->
           Get (VObj s) "prototype" demo_extended = Ret tmpl demo_extended).
Proof.
  split; [repeat split; vm_compute; reflexivity|].
  apply (extend_links_source_template demo_heap (VObj 2) (VObj 4) []
           (VObj 5) demo_extended); vm_compute; reflexivity.
Defined.

(** C3: the constructor [Constructor] returns for an object specification,
    and the constructor [extend] returns, has a [prototype] whose own
    [constructor] property is that constructor. *)
Theorem template_constructor_round_trip (h : heap) (K : value) (h' : heap) :
  (exists o, typeof h (VObj o) = "object"
             /\ Constructor (VObj o) h = Ret K h')
  \/ (exists args, extend args h = Ret K h') ->
  exists k t,
    K = VObj k
    /\ own_value h' k "prototype" = Some (VObj t)
    /\ own_value h' t "constructor" = Some (VObj k)
    /\ Get K "prototype" h' = Ret (VObj t) h'
    /\ Get (VObj t) "constructor" h' = Ret K h'.
Proof.
  intros H.
  assert (exists k t, K = VObj k
            /\ own_value h' k "prototype" = Some (VObj t)
            /\ own_value h' t "constructor" = Some (VObj k))
    as (k & t & -> & Hp & Hc).
  { destruct H as [(o & Ht & HC)|(args & HE)].
    - apply Constructor_Ret_inv in HC
        as [(Hf & _)|(o' & k & [= <-] & _ & Ho & -> & HN)].
      { rewrite Ht in Hf. discriminate. }
      apply lookup_lt_is_Some in Ho. exists k, o. split; [done|].
      split; [exact (normalizes_prototype _ _ _ _ Ho HN)
             | exact (normalizes_constructor _ _ _ _ Ho HN)].
    - apply extend_Ret_inv in HE
        as (_ & s & k & h1 & h2 & _ & _ & Hs & Hk & Hf & _ & _ & _ & -> & ->).
      exists k, (length h2). split; [done|].
      split; [by apply built_prototype | by apply built_constructor]. }
  exists k, t. repeat split; try done; by apply Get_own_value.
Qed.

(** [Constructor({ a: 1 })]. *)
Lemma template_constructor_round_trip_plain :
  ((exists o, typeof plain_heap (VObj o) = "object"
              /\ Constructor (VObj o) plain_heap
                 = Ret (VObj 3) plain_normalized)
   \/ (exists args, extend args plain_heap = Ret (VObj 3) plain_normalized))
  /\ exists k t,
       VObj 3 = VObj k
       /\ own_value plain_normalized k "prototype" = Some (VObj t)
       /\ own_value plain_normalized t "constructor" = Some (VObj k)
       /\ Get (VObj 3) "prototype" plain_normalized
          = Ret (VObj t) plain_normalized
       /\ Get (VObj t) "constructor" plain_normalized
          = Ret (VObj 3) plain_normalized.
Proof.
  assert (H : (exists o, typeof plain_heap (VObj o) = "object"
                 /\ Constructor (VObj o) plain_heap
                    = Ret (VObj 3) plain_normalized)
              \/ (exists args,
                    extend args plain_heap = Ret (VObj 3) plain_normalized)).
  { left. exists 2. split; reflexivity. }
  split; [exact H|].
  exact (template_constructor_round_trip plain_heap (VObj 3)
           plain_normalized H).
Defined.

(** C4 (as stated, refuted): [{ constructor: 42 }] is a plain object that is
    not null, and [Constructor] returns no constructor for it: the own
    [constructor], a number, is not assigned to (sloppy mode), and line 51
    then throws the runtime's TypeError on [undefined]; the heap is as it
    was. *)
Example Constructor_numeric_constructor :
  Constructor (VObj 2)
    (realm ++ [Obj (Some ObjectPrototype) None
                   [("constructor", Prop_ (VNum 42) true)]])
  = Throw EngineTypeError
      (realm ++ [Obj (Some ObjectPrototype) None
                     [("constructor", Prop_ (VNum 42) true)]]).
Proof. vm_compute. reflexivity. Qed.

(** C4 (amended): for a plain object [o] of the heap that inherits the
    built-in [hasOwnProperty] and whose own [constructor], when it has one,
    is a function, [Constructor] returns a constructor [k] with
    [k.prototype] being [o] itself and [o.constructor] being [k]; [k] is the
    own [constructor] of [o] when there is one, and a new no-op function
    otherwise; the call writes [o.constructor] and leaves every other
    property of [o] as it was. *)
Theorem Constructor_object_specification (h : heap) (o : loc) (ob : object) :
  h !! o = Some ob -> o_code ob = None ->
  inherits_hasOwnProperty h o = true ->
  match own_value h o "constructor" with
  | Some c => typeof h c = "function"
  | None => True
  end ->
  exists k h',
    Constructor (VObj o) h = Ret (VObj k) h'
    /\ typeof h' (VObj k) = "function"
    /\ own_value h' k "prototype" = Some (VObj o)
    /\ own_value h' o "constructor" = Some (VObj k)
    /\ match own_value h o "constructor" with
       | Some c => c = VObj k
       | None => k = length h /\ code_of h' (VObj k) = Some NoopFn
       end
    /\ (forall key, key <> "constructor" ->
                    own_prop h' o key = own_prop h o key).
Proof.
  intros Ho Hc _ Hctor.
  assert (Hlt : o < length h) by (by eapply lookup_lt_Some).
  destruct (Constructor (VObj o) h) as [r h'| |] eqn:HC.
  - apply Constructor_Ret_inv in HC
      as [(Ht & _)|(o' & k & [= <-] & _ & _ & -> & HN)].
    { unfold typeof, code_of in Ht. by rewrite Ho, Hc in Ht. }
    exists k, h'. split; [done|].
    pose proof (normalizes_prototype _ _ _ _ Hlt HN) as Hproto.
    pose proof (normalizes_constructor _ _ _ _ Hlt HN) as Hback.
    pose proof (normalizes_code _ _ _ _ Hlt HN) as Hcode.
    assert (Hk : typeof h' (VObj k) = "function"
                 /\ match own_value h o "constructor" with
                    | Some c => c = VObj k
                    | None => k = length h /\ code_of h' (VObj k) = Some NoopFn
                    end).
    { destruct HN as [Hnone|c' pr Hsome Hv Hal].
      - assert (E : code_of
                      (put (put (h ++ [function_object NoopFn (S (length h));
                                       prototype_object (length h)])
                                (length h) "prototype" (VObj o))
                           o "constructor" (VObj (length h)))
                      (VObj (length h)) = Some NoopFn).
        { rewrite !code_of_put. unfold code_of.
          rewrite lookup_app_r by lia.
          by replace (length h - length h) with 0 by lia. }
        unfold typeof. rewrite E. unfold own_value. rewrite Hnone. done.
      - unfold own_value in Hctor |- *. rewrite Hsome in Hctor |- *.
        unfold option_map in Hctor |- *. rewrite Hv in Hctor |- *.
        split; [|done]. unfold typeof in *. by rewrite !code_of_put. }
    destruct Hk as [Hk Hinit].
    repeat (split; [done|]).
    intros key Hkey. eapply normalizes_spec_props; eauto. left.
    intros ->. unfold typeof in Hk.
    rewrite Hcode in Hk by done. unfold code_of in Hk.
    by rewrite Ho, Hc in Hk.
  - exfalso. rewrite (Constructor_object _ _ _ Ho Hc) in HC.
    unfold own_value, own_prop in Hctor. rewrite Ho in Hctor.
    destruct (props_get (o_props ob) "constructor") as [pr|]; [|done].
    simpl in Hctor. apply typeof_function in Hctor as [cd Hcd].
    destruct (p_value pr) as [| | | | |c]; try done.
    unfold code_of in Hcd. by destruct (h !! c).
  - exfalso. rewrite (Constructor_object _ _ _ Ho Hc) in HC.
    unfold own_value, own_prop in Hctor. rewrite Ho in Hctor.
    destruct (props_get (o_props ob) "constructor") as [pr|]; [|done].
    simpl in Hctor. apply typeof_function in Hctor as [cd Hcd].
    destruct (p_value pr) as [| | | | |c]; try done.
    unfold code_of in Hcd. by destruct (h !! c).
Qed.

(** [Constructor({ constructor: Target, kind: 'target' })]: the constructor
    is [Target], object 5. *)
Lemma Constructor_object_specification_demo :
  (demo_heap !! 4
   = Some (Obj (Some ObjectPrototype) None
               [("constructor", Prop_ (VObj 5) true);
                ("kind", Prop_ (VStr "target") true)])
   /\ inherits_hasOwnProperty demo_heap 4 = true
   /\ typeof demo_heap (VObj 5) = "function")
  /\ exists k h',
       Constructor (VObj 4) demo_heap = Ret (VObj k) h'
       /\ typeof h' (VObj k) = "function"
       /\ own_value h' k "prototype" = Some (VObj 4)
       /\ own_value h' 4 "constructor" = Some (VObj k)
       /\ VObj 5 = VObj k
       /\ (forall key, key <> "constructor" ->
                       own_prop h' 4 key = own_prop demo_heap 4 key).
Proof.
  split; [repeat split; reflexivity|].
  apply (Constructor_object_specification demo_heap 4
           (Obj (Some ObjectPrototype) None
                [("constructor", Prop_ (VObj 5) true);
                 ("kind", Prop_ (VStr "target") true)]));
    reflexivity.
Defined.






(** C7: with no argument or one argument [extend] throws the ArgumentCount
    error; with two or more it never throws that error, and what follows
    the second argument does not change the result. *)
Theorem extend_argument_count (source target : value) (extra : list value)
        (h : heap) :
  extend [] h = Throw ArgumentCount (entry_heap h)
  /\ extend [source] h = Throw ArgumentCount (entry_heap h)
  /\ (forall e h', extend (source :: target :: extra) h = Throw e h' ->
                   e <> ArgumentCount)
  /\ extend (source :: target :: extra) h = extend [source; target] h.
Proof.
  split; [|split; [|split]].
  - rewrite extend_unfold. reflexivity.
  - rewrite extend_unfold. reflexivity.
  - intros e h' HE.
    apply extend_Throw_inv in HE
      as [(Hlen & _)|[(_ & HS & _)|(_ & ns & _ & HT)]].
    + simpl in Hlen. lia.
    + by eapply pass_through_not_ArgumentCount.
    + by eapply pass_through_not_ArgumentCount.
  - rewrite !extend_unfold. reflexivity.
Qed.

(** C8 (as stated, refuted): two objects made by [new Target] that differ
    only in a field assigned before the call, [this.constructor = Source].
    On the one without the field [parent] applies [Source] (object 2) to the
    link instance 13; on the one with the field it throws at [new parent],
    [Source.parent] being undefined, and the initializer does not run. *)
Lemma parent_depends_on_constructor_field :
  parent_setup (call demo_code 1) (VObj 12) demo_instance
  = Ret (VObj 13, VObj 2) (demo_instance ++ [link_instance (VObj 3)])
  /\ parent_setup (call demo_code 1) (VObj 12) demo_instance_preset
     = Throw EngineTypeError demo_instance_preset
  /\ invoke demo_code 2 (VObj 12) "parent" [VStr "x"] demo_instance_preset
     = Throw EngineTypeError demo_instance_preset.
Proof. repeat split; vm_compute; reflexivity. Qed.

(** C8 (amended): take a closed heap with a wired constructor [k], and two
    objects allocated on it with the same prototype and any own fields that
    agree on [constructor]; if [this.constructor] resolves to [k] on the
    first, then on both the call [this.parent(args)] makes the same link
    instance [p], a new object without own properties that delegates to the
    link's prototype, resolves the same function [p.constructor], and goes
    on by applying it to [p], not to the object, with [args]; the two heaps
    the initializer starts from differ in the object itself only. *)
Theorem parent_ignores_preset_fields
        (user : nat -> callback -> value -> list value -> M value) (n : nat)
        (h : heap) (P k f : loc) (tmpl : value)
        (fields1 fields2 : list (string * prop)) (args : list value) :
  closed_heap h = true ->
  P < length h ->
  wired h k f tmpl ->
  props_get fields1 "constructor" = props_get fields2 "constructor" ->
  Get (VObj (length h)) "constructor" (h ++ [Obj (Some P) None fields1])
  = Ret (VObj k) (h ++ [Obj (Some P) None fields1]) ->
  let this := VObj (length h) in
  let p := VObj (S (length h)) in
  let start1 := (h ++ [Obj (Some P) None fields1]) ++ [link_instance tmpl] in
  let start2 := (h ++ [Obj (Some P) None fields2]) ++ [link_instance tmpl] in
  exists init,
    parent (call user (S n)) this args (h ++ [Obj (Some P) None fields1])
    = (Apply (call user (S n)) init p args ;;;
       copy_own p this ;;; Put this "parent" p ;;; ret this) start1
    /\ parent (call user (S n)) this args (h ++ [Obj (Some P) None fields2])
       = (Apply (call user (S n)) init p args ;;;
          copy_own p this ;;; Put this "parent" p ;;; ret this) start2
    /\ parent_setup (call user (S n)) this (h ++ [Obj (Some P) None fields1])
       = Ret (p, init) start1
    /\ parent_setup (call user (S n)) this (h ++ [Obj (Some P) None fields2])
       = Ret (p, init) start2
    /\ start1 !! S (length h) = Some (link_instance tmpl)
    /\ start2 !! S (length h) = Some (link_instance tmpl)
    /\ forall l, l <> length h -> start1 !! l = start2 !! l.
Proof.
  intros Hc HP Hw Hf Hctor this p start1 start2.
  assert (Hk : k < length h).
  { destruct Hw as [Hp _ _]. unfold own_value, own_prop in Hp.
    destruct (h !! k) eqn:E; [|done]. by eapply lookup_lt_Some. }
  assert (Ht : default_proto tmpl < length h).
  { destruct Hw as [_ _ Ht].
    apply (closed_own_value _ _ _ _ Hc) in Ht.
    destruct tmpl; try (unfold default_proto, ObjectPrototype; lia).
    by apply valid_ref_obj in Ht. }
  (* what [this.constructor] and [p.constructor] resolve to, on any fields *)
  assert (Hget : forall fields,
            props_get fields "constructor" = props_get fields1 "constructor" ->
            Get (VObj (length h)) "constructor"
                (h ++ [Obj (Some P) None fields])
            = Ret (VObj k) (h ++ [Obj (Some P) None fields])).
  { intros fields Hfs. unfold Get in Hctor |- *.
    rewrite lookup_app_r in Hctor |- * by lia.
    replace (length h - length h) with 0 in Hctor |- * by lia.
    cbn [lookup list_lookup] in Hctor |- *.
    rewrite !length_app in Hctor |- *. cbn [length] in Hctor |- *.
    replace (length h + 1) with (S (length h)) in Hctor |- * by lia.
    cbn [lookup_chain] in Hctor |- *.
    rewrite lookup_app_r in Hctor |- * by lia.
    replace (length h - length h) with 0 in Hctor |- * by lia.
    cbn [lookup list_lookup o_props o_proto] in Hctor |- *.
    rewrite Hfs.
    destruct (props_get fields1 "constructor");
      [injection Hctor as Hv; by rewrite Hv|].
    rewrite lookup_chain_closed_app in Hctor |- * by done.
    injection Hctor as Hv. by rewrite Hv. }
  assert (Hinit : forall fields,
            get_value ((h ++ [Obj (Some P) None fields])
                         ++ [link_instance tmpl])
                      (length (h ++ [Obj (Some P) None fields]))
                      "constructor"
            = match lookup_chain (S (length h)) h (default_proto tmpl)
                                 "constructor" with
              | Some p => p_value p
              | None => VUndef
              end).
  { intros fields. rewrite get_value_link_instance.
    rewrite length_app. cbn [length].
    replace (length h + 1) with (S (length h)) by lia.
    rewrite <- app_assoc. by rewrite lookup_chain_closed_app. }
  assert (Hsetup : forall fields,
            props_get fields "constructor" = props_get fields1 "constructor" ->
            parent_setup (call user (S n)) this
                         (h ++ [Obj (Some P) None fields])
            = Ret (p, match lookup_chain (S (length h)) h (default_proto tmpl)
                                         "constructor" with
                      | Some p => p_value p
                      | None => VUndef
                      end)
                  ((h ++ [Obj (Some P) None fields]) ++ [link_instance tmpl])).
  { intros fields Hfs. unfold this, p.
    rewrite (parent_setup_wired user n _ _ k f tmpl);
      [|by apply wired_app|by apply Hget].
    rewrite Hinit. rewrite length_app. cbn [length].
    by replace (length h + 1) with (S (length h)) by lia. }
  assert (Hlink : forall fields,
            ((h ++ [Obj (Some P) None fields]) ++ [link_instance tmpl])
              !! S (length h) = Some (link_instance tmpl)).
  { intros fields. rewrite <- app_assoc.
    rewrite lookup_app_r by lia.
    by replace (S (length h) - length h) with 1 by lia. }
  eexists.
  split; [rewrite parent_split, (Hsetup fields1 eq_refl); reflexivity|].
  split; [by rewrite parent_split, (Hsetup fields2 (eq_sym Hf))|].
  split; [exact (Hsetup fields1 eq_refl)|].
  split; [exact (Hsetup fields2 (eq_sym Hf))|].
  split; [apply Hlink|]. split; [apply Hlink|].
  intros l Hl. unfold start1, start2. rewrite <- !app_assoc.
  destruct (decide (l < length h)) as [Hlt|Hge].
  - by rewrite !lookup_app_l.
  - rewrite !(lookup_app_r h) by lia.
    destruct (l - length h) as [|j] eqn:E; [lia|]. done.
Qed.

(** Two objects of [Target], one with the field [early] set before the call
    [this.parent('x')]. *)
Lemma parent_ignores_preset_fields_demo :
  (closed_heap demo_extended = true
   /\ 9 < length demo_extended
   /\ wired demo_extended 5 7 (VObj 3)
   /\ props_get [("early", Prop_ (VNum 1) true)] "constructor"
      = props_get [] "constructor"
   /\ Get (VObj (length demo_extended)) "constructor"
          (demo_extended
             ++ [Obj (Some 9) None [("early", Prop_ (VNum 1) true)]])
      = Ret (VObj 5)
            (demo_extended
               ++ [Obj (Some 9) None [("early", Prop_ (VNum 1) true)]]))
  /\ exists init,
       parent (call demo_code 1) (VObj 12) [VStr "x"]
              (demo_extended
                 ++ [Obj (Some 9) None [("early", Prop_ (VNum 1) true)]])
       = (Apply (call demo_code 1) init (VObj 13) [VStr "x"] ;;;
          copy_own (VObj 13) (VObj 12) ;;;
          Put (VObj 12) "parent" (VObj 13) ;;; ret (VObj 12))
           ((demo_extended
               ++ [Obj (Some 9) None [("early", Prop_ (VNum 1) true)]])
              ++ [link_instance (VObj 3)])
       /\ parent (call demo_code 1) (VObj 12) [VStr "x"]
                 (demo_extended ++ [Obj (Some 9) None []])
          = (Apply (call demo_code 1) init (VObj 13) [VStr "x"] ;;;
             copy_own (VObj 13) (VObj 12) ;;;
             Put (VObj 12) "parent" (VObj 13) ;;; ret (VObj 12))
              ((demo_extended ++ [Obj (Some 9) None []])
                 ++ [link_instance (VObj 3)]).
Proof.
  assert (Hw : wired demo_extended 5 7 (VObj 3)) by (split; reflexivity).
  split.
  { split; [reflexivity|]. split; [vm_compute; lia|]. split; [exact Hw|].
    split; reflexivity. }
  destruct (parent_ignores_preset_fields demo_code 0 demo_extended 9 5 7
              (VObj 3) [("early", Prop_ (VNum 1) true)] [] [VStr "x"])
    as (init & H1 & H2 & _);
    [reflexivity | vm_compute; lia | exact Hw | reflexivity | reflexivity |].
  exists init. split; [exact H1 | exact H2].
Defined.

(** C9 (as stated, refuted): [extend(o, 42)] throws the TypeError of the
    invalid target after [o], a valid object specification, has been given
    its [constructor] property. *)
Lemma extend_failure_after_mutation :
  extend [VObj 2; VNum 42] plain_heap
  = Throw (TypeError (Constructor_error ++ "number [42]"))
          plain_after_failed_extend
  /\ own_value plain_heap 2 "constructor" = None
  /\ own_value plain_after_failed_extend 2 "constructor" = Some (VObj 5).
Proof. repeat split; vm_compute; reflexivity. Qed.

(** C9 (amended): [Constructor] throws before it writes anything.  [extend]
    throws the ArgumentCount error, and any error of normalizing the source,
    before it writes to any object that existed; an error of normalizing the
    target is thrown once the source has been normalized, so an object
    specification given as source, and the constructor it names, have been
    written to and stay so, and nothing else that existed is written to. *)
Theorem failing_calls_and_mutation (h : heap) (e : js_error) (h' : heap) :
  (forall v, Constructor v h = Throw e h' -> h' = h)
  /\ (forall args, extend args h = Throw e h' ->
      (forall l, l < length h -> h' !! l = h !! l)
      \/ (exists o c,
            2 <= length args
            /\ nth 0 args VUndef = VObj o
            /\ typeof (entry_heap h) (VObj o) = "object"
            /\ normalizes (entry_heap h) o c h'
            /\ Constructor (nth 1 args VUndef) h' = Throw e h'
            /\ forall l, l < length h -> l <> o -> l <> c ->
                         h' !! l = h !! l)).
Proof.
  split; [intros v; apply Constructor_Throw_inv|].
  intros args HE.
  assert (Hentry : forall l, l < length h -> entry_heap h !! l = h !! l).
  { intros l Hl. unfold entry_heap. by apply lookup_app_l. }
  apply extend_Throw_inv in HE
    as [(_ & _ & ->)|[(_ & _ & ->)|(Hlen & ns & HS & HT)]]; [by left..|].
  assert (HT' : Constructor (nth 1 args VUndef) h' = Throw e h').
  { unfold pass_through in HT.
    by destruct (negb (String.eqb (typeof (entry_heap h) (nth 1 args VUndef))
                                  "function")). }
  apply pass_through_Ret_inv in HS
    as [(_ & -> & _)|(_ & o & c & Hsrc & Ht & Ho & -> & HN)]; [by left|].
  right. exists o, c. rewrite Hsrc in Ht. do 5 (split; [done|]).
  intros l Hl Hlo Hlc. rewrite <- Hentry by done.
  apply lookup_lt_is_Some in Ho.
  apply (normalizes_frame _ _ _ _ Ho HN); [|done..].
  rewrite entry_length. lia.
Qed.

(** C10 (as stated, refuted): [Base] is a function whose prototype has the
    property [foo]; after [extend(Base, Base)] an object made by [new Base()]
    still reads [foo] from that old prototype, object 3, which is on its
    prototype chain. *)
Lemma extend_self_old_template_reachable :
  typeof base_heap (VObj 2) = "function"
  /\ own_value base_heap 2 "prototype" = Some (VObj 3)
  /\ own_value base_heap 3 "foo" = Some (VNum 1)
  /\ extend [VObj 2; VObj 2] base_heap = Ret (VObj 2) base_self_extended
  /\ New demo_code 1 (VObj 2) [] base_self_extended
     = Ret (VObj 9) base_self_instance
  /\ Get (VObj 9) "foo" base_self_instance = Ret (VNum 1) base_self_instance
  /\ proto_chain 4 base_self_instance 9 = [9; 6; 3; 0].
Proof. repeat split; vm_compute; reflexivity. Qed.

(** C10 (amended): for a callable target, [extend] installs as its
    [prototype] a new object that holds the two properties [constructor] and
    [parent] and nothing of the old prototype, and that delegates to the
    [prototype] of the normalized source.  Any other property is therefore
    read from the source's prototype chain, and an object that existed
    before, such as the old prototype, is on the chain of the new prototype
    exactly when it is on the chain of the source's. *)
Theorem extend_callable_target (h : heap) (source target : value)
        (extra : list value)
        (K : value) (h' : heap) :
  typeof h target = "function" ->
  extend (source :: target :: extra) h = Ret K h' ->
  K = target /\
  exists k P pf s tmpl h1,
    target = VObj k
    /\ pass_through (typeof (entry_heap h) source) source (entry_heap h)
       = Ret (VObj s) h1
    /\ Get (VObj s) "prototype" h1 = Ret tmpl h1
    /\ own_value h' k "prototype" = Some (VObj P)
    /\ h !! P = None
    /\ h' !! P = Some (Obj (Some (default_proto tmpl)) None
                           [("constructor", Prop_ K true);
                            ("parent", Prop_ (VObj pf) true)])
    /\ code_of h' (VObj pf) = Some ParentFn
    /\ (forall n key, key <> "constructor" -> key <> "parent" ->
          lookup_chain (S n) h' P key
          = lookup_chain n h' (default_proto tmpl) key)
    /\ (forall n old, old <> P ->
          In old (proto_chain (S n) h' P)
          <-> In old (proto_chain n h' (default_proto tmpl))).
Proof.
  intros HTf HE.
  assert (exists t, target = VObj t /\ t < length h) as (t & -> & Ht).
  { apply typeof_function in HTf as [cd Hcd].
    destruct target as [| | | | |t]; try done.
    exists t. split; [done|]. by eapply code_of_Some_lt. }
  assert (HTf0 : typeof (entry_heap h) (VObj t) = "function").
  { rewrite <- HTf. apply typeof_code_eq.
    unfold entry_heap. by apply code_of_app. }
  apply extend_Ret_inv in HE
    as (_ & s & k & h1 & h2 & HPs & HPt & Hs & Hk & Hf & Hl1 & Hl2 & Hcode
        & -> & ->).
  cbn [nth] in HPs, HPt |- *.
  pose proof (entry_length h) as Hl0.
  rewrite HTf0 in HPt |- *. unfold pass_through in HPt. simpl in HPt.
  injection HPt as -> ->. split; [done|].
  assert (HP : built_heap h2 (length h) s k "function" !! length h2
               = Some (Obj (Some (default_proto (get_value h2 s "prototype")))
                           None
                           [("constructor", Prop_ (VObj k) true);
                            ("parent", Prop_ (VObj (S (length h2))) true)])).
  { by apply built_template_callable. }
  exists k, (length h2), (S (length h2)), s, (get_value h2 s "prototype"), h2.
  split; [done|]. split; [done|].
  split; [apply Get_obj, lookup_lt_is_Some; lia|].
  split; [by apply built_prototype|].
  split; [apply lookup_ge_None_2; lia|].
  split; [done|].
  split; [by apply built_parent_code|].
  split.
  - intros n key Hk1 Hk2. rewrite (lookup_chain_lookup_eq _ _ _ _ _ HP).
    cbn [o_props o_proto props_get].
    apply not_eq_sym in Hk1, Hk2. apply String.eqb_neq in Hk1, Hk2.
    by rewrite Hk1, Hk2.
  - intros n old Hold. cbn [proto_chain]. rewrite HP. cbn [o_proto].
    split; [|by right].
    intros [?|?]; [congruence | done].
Qed.

(** [extend(Source, Target)] with the function [Target] as target. *)
Lemma extend_callable_target_demo :
  (typeof demo_heap (VObj 5) = "function"
   /\ extend [VObj 2; VObj 5] demo_heap = Ret (VObj 5) demo_function_extended)
  /\ VObj 5 = VObj 5
  /\ exists k P pf s tmpl h1,
       VObj 5 = VObj k
       /\ pass_through (typeof (entry_heap demo_heap) (VObj 2)) (VObj 2)
                       (entry_heap demo_heap) = Ret (VObj s) h1
       /\ Get (VObj s) "prototype" h1 = Ret tmpl h1
       /\ own_value demo_function_extended k "prototype" = Some (VObj P)
       /\ demo_heap !! P = None
       /\ demo_function_extended !! P
          = Some (Obj (Some (default_proto tmpl)) None
                      [("constructor", Prop_ (VObj 5) true);
                       ("parent", Prop_ (VObj pf) true)])
       /\ code_of demo_function_extended (VObj pf) = Some ParentFn
       /\ (forall n key, key <> "constructor" -> key <> "parent" ->
             lookup_chain (S n) demo_function_extended P key
             = lookup_chain n demo_function_extended (default_proto tmpl) key)
       /\ (forall n old, old <> P ->
             In old (proto_chain (S n) demo_function_extended P)
             <-> In old (proto_chain n demo_function_extended
                                     (default_proto tmpl))).
Proof.
  split; [split; vm_compute; reflexivity|].
  apply (extend_callable_target demo_heap (VObj 2) (VObj 5) [] (VObj 5)
           demo_function_extended); vm_compute; reflexivity.
Defined.

(** * Further properties of the code *)

(** ** The copy loop, property by property *)


(** A key already seen nearer to the object is not visited again. *)
Lemma for_in_keys_seen (h : heap) n l seen key :
  mem key seen = true -> mem key (for_in_keys n h l seen) = false.
Proof.
  revert l seen. induction n as [|n IH]; intros l seen Hs; [done|].
  cbn [for_in_keys]. destruct (h !! l) as [o|]; [|done].
  rewrite mem_app. apply orb_false_iff. split.
  - induction (o_props o) as [|[k' p'] ps IHps]; [done|]. simpl.
    destruct (p_enum p' && negb (mem k' seen)) eqn:E; [|exact IHps].
    simpl. rewrite IHps, orb_false_r.
    apply andb_true_iff in E as [_ E]. apply negb_true_iff in E.
    destruct (String.eqb key k') eqn:Ek; [|done].
    apply String.eqb_eq in Ek. congruence.
  - destruct (o_proto o); [|done]. apply IH.
    rewrite mem_app, Hs. done.
Qed.

Lemma mem_map_fst_props ps key pr :
  props_get ps key = Some pr -> mem key (map fst ps) = true.
Proof.
  unfold mem. induction ps as [|[k' p'] ps IH]; simpl; [done|].
  destruct (String.eqb k' key) eqn:E.
  - intros _. rewrite String.eqb_sym, E. done.
  - intros H. rewrite (IH H). apply orb_true_r.
Qed.

(** An own property that is not enumerable is not among the own keys the
    loop visits, the keys of an object being distinct. *)
Lemma mem_filter_false key (f : string * prop -> bool) ps :
  mem key (map fst ps) = false -> mem key (map fst (List.filter f ps)) = false.
Proof.
  unfold mem. induction ps as [|[k' p'] ps IH]; simpl; [done|].
  intros H. apply orb_false_iff in H as [H1 H2].
  destruct (f (k', p')); simpl; rewrite ?H1; by apply IH.
Qed.

Lemma mem_not_enumerable_own ps key pr seen :
  distinct (map fst ps) = true ->
  props_get ps key = Some pr -> p_enum pr = false ->
  mem key (map fst (List.filter
                      (fun kp => p_enum (snd kp) && negb (mem (fst kp) seen))
                      ps)) = false.
Proof.
  intros Hnd Hg He. induction ps as [|[k' p'] ps IH]; [done|].
  simpl in Hnd. apply andb_true_iff in Hnd as [Hnin Hnd].
  apply negb_true_iff in Hnin.
  simpl in Hg |- *. destruct (String.eqb k' key) eqn:E.
  - apply String.eqb_eq in E. subst k'. injection Hg as ->.
    rewrite He. simpl. by apply mem_filter_false.
  - destruct (p_enum p' && negb (mem k' seen)); [|by apply IH].
    simpl. unfold mem. simpl. rewrite String.eqb_sym, E. simpl. by apply IH.
Qed.

Lemma for_in_keys_own_hidden (h : heap) l ob key pr n :
  h !! l = Some ob -> distinct_keys ob = true ->
  props_get (o_props ob) key = Some pr -> p_enum pr = false ->
  mem key (for_in_keys n h l []) = false.
Proof.
  intros Ho Hnd Hp He. destruct n as [|n]; [done|].
  cbn [for_in_keys]. rewrite Ho, mem_app.
  rewrite (mem_not_enumerable_own _ _ _ _ Hnd Hp He). simpl.
  destruct (o_proto ob); [|done].
  apply for_in_keys_seen. simpl. by eapply mem_map_fst_props.
Qed.

(** The own property [to] has for [k] after the loop. *)
Lemma copy_steps_own_prop from to ks h k :
  from <> to -> is_Some (h !! to) ->
  own_prop (fold_left (copy_step from to) ks h) to k
  = if mem k ks then
      match own_prop h from k with
      | Some pr =>
          Some (Prop_ (p_value pr)
                      (match own_prop h to k with
                       | Some q => p_enum q
                       | None => true
                       end))
      | None => own_prop h to k
      end
    else own_prop h to k.
Proof.
  intros Hne. revert h. induction ks as [|k0 ks IH]; intros h Ht; [done|].
  simpl.
  assert (Hfrom : forall k', own_prop (copy_step from to h k0) from k'
                             = own_prop h from k').
  { intros k'. unfold copy_step. destruct (own_prop h from k0); [|done].
    apply own_prop_put_ne. left. congruence. }
  rewrite IH.
  2:{ rewrite lookup_lt_is_Some, copy_step_length, <- lookup_lt_is_Some. done. }
  rewrite Hfrom.
  destruct (String.eqb k k0) eqn:E; simpl.
  - apply String.eqb_eq in E. subst k0.
    assert (Hto : own_prop (copy_step from to h k) to k
                  = match own_prop h from k with
                    | Some pr =>
                        Some (Prop_ (p_value pr)
                                (match own_prop h to k with
                                 | Some q => p_enum q
                                 | None => true
                                 end))
                    | None => own_prop h to k
                    end).
    { unfold copy_step.
      destruct (own_prop h from k) as [pr|]; [|done].
      by apply own_prop_put_eq. }
    rewrite Hto.
    destruct (own_prop h from k) as [pr|]; [|by destruct (mem k ks)].
    simpl. by destruct (mem k ks).
  - apply String.eqb_neq in E.
    assert (Hto : own_prop (copy_step from to h k0) to k = own_prop h to k).
    { unfold copy_step. destruct (own_prop h from k0); [|done].
      apply own_prop_put_ne. right. congruence. }
    by rewrite Hto.
Qed.

(** What the loop leaves on [to], from the properties of [from]. *)
Lemma copy_into_own_prop (h : heap) from to ob key :
  h !! from = Some ob -> distinct_keys ob = true ->
  is_Some (h !! to) -> from <> to ->
  own_prop (copy_into h from to) to key
  = match own_prop h from key with
    | Some pr =>
        if p_enum pr
        then Some (Prop_ (p_value pr)
                         (match own_prop h to key with
                          | Some q => p_enum q
                          | None => true
                          end))
        else own_prop h to key
    | None => own_prop h to key
    end.
Proof.
  intros Ho Hnd Ht Hne. unfold copy_into.
  rewrite copy_steps_own_prop by done.
  destruct (own_prop h from key) as [pr|] eqn:Hp;
    [|by destruct (mem key _)].
  destruct (p_enum pr) eqn:He.
  - destruct (length h) as [|n] eqn:Hn.
    { apply lookup_lt_Some in Ho. lia. }
    by rewrite (for_in_keys_own _ _ _ _ _ Hp He).
  - unfold own_prop in Hp. rewrite Ho in Hp.
    by rewrite (for_in_keys_own_hidden _ _ _ _ _ _ Ho Hnd Hp He).
Qed.

(** X1: the loop of lines 98-102 and 118-122, run on an object [from] that
    inherits the built-in [hasOwnProperty], copies the own enumerable
    properties of [from], by value of the property (a reference is copied as
    a reference), onto [to]: a property [to] had keeps its place and its
    enumerable flag, a new one is enumerable.  Inherited properties, which
    the [for-in] statement visits, and own properties that are not
    enumerable are not copied; no other object is written. *)
Theorem copy_own_properties (h : heap) (from to : loc) (ob : object) :
  h !! from = Some ob -> distinct_keys ob = true ->
  inherits_hasOwnProperty h from = true ->
  is_Some (h !! to) -> from <> to ->
  exists h',
    copy_own (VObj from) (VObj to) h = Ret tt h'
    /\ (forall key,
          own_prop h' to key
          = match own_prop h from key with
            | Some pr =>
                if p_enum pr
                then Some (Prop_ (p_value pr)
                                 (match own_prop h to key with
                                  | Some q => p_enum q
                                  | None => true
                                  end))
                else own_prop h to key
            | None => own_prop h to key
            end)
    /\ (forall l, l <> to -> h' !! l = h !! l)
    /\ proto_of h' to = proto_of h to
    /\ code_of h' (VObj to) = code_of h (VObj to).
Proof.
  intros Ho Hnd _ Ht Hne. exists (copy_into h from to).
  split; [by apply copy_own_any|].
  split; [intros key; by eapply copy_into_own_prop|].
  split; [intros l Hl; by apply copy_steps_lookup_ne|].
  split; [apply copy_steps_proto | apply copy_steps_code].
Qed.

(** The loop on [copy_heap], from object 3 to object 4. *)
Lemma copy_own_properties_demo :
  (copy_heap !! 3 = Some (Obj (Some 2) None
                              [("a", Prop_ (VNum 1) true);
                               ("hidden", Prop_ (VNum 2) false)])
   /\ distinct_keys (Obj (Some 2) None
                         [("a", Prop_ (VNum 1) true);
                          ("hidden", Prop_ (VNum 2) false)]) = true
   /\ inherits_hasOwnProperty copy_heap 3 = true
   /\ is_Some (copy_heap !! 4) /\ 3 <> 4)
  /\ exists h',
       copy_own (VObj 3) (VObj 4) copy_heap = Ret tt h'
       /\ own_prop h' 4 "a" = Some (Prop_ (VNum 1) false)
       /\ own_prop h' 4 "hidden" = None
       /\ own_prop h' 4 "inherited" = None.
Proof.
  split; [repeat split; (reflexivity || by eexists || lia)|].
  destruct (copy_own_properties copy_heap 3 4
              (Obj (Some 2) None [("a", Prop_ (VNum 1) true);
                                  ("hidden", Prop_ (VNum 2) false)]))
    as (h' & Hrun & Hprops & _);
    [reflexivity | reflexivity | reflexivity | by eexists | lia |].
  exists h'. split; [exact Hrun|].
  split; [exact (Hprops "a")|]. split; [exact (Hprops "hidden")|].
  exact (Hprops "inherited").
Defined.

(** ** [Constructor] on object specifications, property by property *)

Lemma Constructor_Ret_obj v h r h1 :
  Constructor v h = Ret r h1 -> exists l, r = VObj l /\ l < length h1.
Proof.
  intros HC. apply Constructor_Ret_inv in HC
    as [(Ht & -> & ->)|(o & c & -> & _ & Ho & -> & HN)].
  - apply typeof_function in Ht as [cd Hcd].
    destruct v as [| | | | |l]; try done. exists l. split; [done|].
    by eapply code_of_Some_lt.
  - exists c. split; [done|]. apply lookup_lt_is_Some in Ho.
    by eapply normalizes_result.
Qed.

Lemma own_value_Some_lt (h : heap) l k v :
  own_value h l k = Some v -> l < length h.
Proof.
  unfold own_value, own_prop. destruct (h !! l) eqn:E; [|done]. intros _.
  by eapply lookup_lt_Some.
Qed.

Section NormalizesMore.
Variables (h : heap) (o c : loc) (h1 : heap).
Hypothesis Ho : o < length h.
Hypothesis HN : normalizes h o c h1.

(** The constructor keeps every property but [prototype] (and
    [constructor], when the specification names itself). *)
Lemma normalizes_constructor_props k :
  k <> "prototype" -> (o <> c \/ k <> "constructor") ->
  own_prop h1 c k = own_prop h c k.
Proof using All.
  intros Hk1 Hk2. destruct HN as [|c pr ? ? Hc].
  - rewrite own_prop_put_ne by (left; lia).
    rewrite own_prop_put_ne by (right; congruence).
    unfold own_prop. rewrite lookup_app_r by lia.
    replace (length h - length h) with 0 by lia.
    rewrite (lookup_ge_None_2 h (length h)) by lia.
    cbn [lookup list_lookup function_object o_props props_get].
    apply not_eq_sym, String.eqb_neq in Hk1. by rewrite Hk1.
  - rewrite own_prop_put_ne by (destruct Hk2; [left | right]; congruence).
    by rewrite own_prop_put_ne by (right; congruence).
Qed.

Lemma normalizes_proto l :
  l < length h -> proto_of h1 l = proto_of h l.
Proof using All.
  intros Hl. destruct HN; rewrite !proto_of_put; [|done].
  by rewrite proto_of_app.
Qed.



End NormalizesMore.

(** X2: [Constructor] applied to the [prototype] of a constructor whose
    [prototype.constructor] is that constructor (every constructor made by
    [Constructor] or [extend], and every function with the prototype it was
    created with), a prototype that inherits the built-in [hasOwnProperty],
    returns that constructor and changes nothing. *)
Theorem Constructor_inverts_prototype (h : heap) (k o : loc) :
  own_value h k "prototype" = Some (VObj o) ->
  own_value h o "constructor" = Some (VObj k) ->
  code_of h (VObj o) = None ->
  inherits_hasOwnProperty h o = true ->
  Constructor (VObj o) h = Ret (VObj k) h
  /\ Get (VObj k) "prototype" h = Ret (VObj o) h.
Proof.
  intros Hproto Hback Hcode _. split; [|by apply Get_own_value].
  pose proof (own_value_Some_lt _ _ _ _ Hproto) as Hk.
  destruct (h !! o) as [ob|] eqn:Hob.
  2:{ apply own_value_Some_lt in Hback. apply lookup_ge_None in Hob. lia. }
  assert (Hcob : o_code ob = None).
  { unfold code_of in Hcode. by rewrite Hob in Hcode. }
  rewrite (Constructor_object _ _ _ Hob Hcob).
  pose proof Hback as Hback'.
  unfold own_value, own_prop in Hback. rewrite Hob in Hback.
  destruct (props_get (o_props ob) "constructor") as [pr|] eqn:Hpr; [|done].
  simpl in Hback. injection Hback as Hv. rewrite Hv.
  destruct (h !! k) eqn:Hoc.
  2:{ apply lookup_ge_None in Hoc. lia. }
  rewrite (put_id h k "prototype" (VObj o)) by done.
  by rewrite put_id.
Qed.

(** [Constructor(Base.prototype)] *)
Lemma Constructor_inverts_prototype_base :
  (own_value base_heap 2 "prototype" = Some (VObj 3)
   /\ own_value base_heap 3 "constructor" = Some (VObj 2)
   /\ code_of base_heap (VObj 3) = None
   /\ inherits_hasOwnProperty base_heap 3 = true)
  /\ Constructor (VObj 3) base_heap = Ret (VObj 2) base_heap
  /\ Get (VObj 2) "prototype" base_heap = Ret (VObj 3) base_heap.
Proof.
  split; [repeat split; reflexivity|].
  apply (Constructor_inverts_prototype base_heap 2 3); reflexivity.
Defined.

(** X3: [Constructor] does not check the own [constructor] of an object
    specification, here one that inherits the built-in [hasOwnProperty].
    When it is an object that is not a function, the call
    returns that object, which cannot be used with [new], after setting its
    [prototype]; when it is [null] or [undefined], line 50 throws the
    runtime's TypeError, and when it is another primitive, line 51 does: not
    one of the errors of lines 41 and 45, and nothing has been written. *)
Theorem Constructor_constructor_not_function (h : heap) (o : loc)
        (ob : object) (c : value) :
  h !! o = Some ob -> o_code ob = None ->
  inherits_hasOwnProperty h o = true ->
  own_value h o "constructor" = Some c ->
  typeof h c <> "function" -> valid_ref h c = true ->
  match c with
  | VObj c' =>
      Constructor (VObj o) h = Ret c (put h c' "prototype" (VObj o))
      /\ typeof (put h c' "prototype" (VObj o)) c = "object"
      /\ forall body,
           construct body c (put h c' "prototype" (VObj o))
           = Throw EngineTypeError (put h c' "prototype" (VObj o))
  | _ => Constructor (VObj o) h = Throw EngineTypeError h
  end.
Proof.
  intros Ho Hc _ Hown Hty Hv.
  rewrite (Constructor_object _ _ _ Ho Hc).
  pose proof Hown as Hown'.
  unfold own_value, own_prop in Hown. rewrite Ho in Hown.
  destruct (props_get (o_props ob) "constructor") as [pr|] eqn:Hpr; [|done].
  simpl in Hown. injection Hown as Hpv. rewrite Hpv.
  destruct c as [| | | | |c']; try done.
  apply valid_ref_obj, lookup_lt_is_Some in Hv as [oc Hoc]. rewrite Hoc.
  assert (Hcode : code_of h (VObj c') = None).
  { unfold typeof in Hty. by destruct (code_of h (VObj c')). }
  split.
  { rewrite (put_id (put h c' "prototype" (VObj o))); [done|].
    destruct (decide (c' = o)) as [->|Hne].
    - by rewrite own_value_put_ne by (right; done).
    - by rewrite own_value_put_ne by (left; done). }
  split.
  { unfold typeof. by rewrite code_of_put, Hcode. }
  intros body. unfold construct. by rewrite code_of_put, Hcode.
Qed.

(** [Constructor({ constructor: {} })] *)
Lemma Constructor_constructor_not_function_odd :
  (odd_heap !! 2
   = Some (Obj (Some ObjectPrototype) None
               [("constructor", Prop_ (VObj 3) true)])
   /\ inherits_hasOwnProperty odd_heap 2 = true
   /\ own_value odd_heap 2 "constructor" = Some (VObj 3)
   /\ typeof odd_heap (VObj 3) <> "function"
   /\ valid_ref odd_heap (VObj 3) = true)
  /\ Constructor (VObj 2) odd_heap
     = Ret (VObj 3) (put odd_heap 3 "prototype" (VObj 2))
  /\ typeof (put odd_heap 3 "prototype" (VObj 2)) (VObj 3) = "object"
  /\ forall body,
       construct body (VObj 3) (put odd_heap 3 "prototype" (VObj 2))
       = Throw EngineTypeError (put odd_heap 3 "prototype" (VObj 2)).
Proof.
  split; [repeat split; (reflexivity || discriminate)|].
  apply (Constructor_constructor_not_function odd_heap 2
           (Obj (Some ObjectPrototype) None
                [("constructor", Prop_ (VObj 3) true)]) (VObj 3));
    (reflexivity || discriminate).
Defined.



(** ** The module and [new Constructor] *)

(** X5: [new Constructor(v)] behaves as [Constructor(v)] does on the heap
    in which the receiver has been allocated: the same result or the same
    error, since [Constructor] returns an object whenever it returns.  The
    receiver is not written to and is not the result. *)
Theorem new_Constructor
        (user : nat -> callback -> value -> list value -> M value) (n : nat)
        (h : heap) (C : loc) (v : value) :
  code_of h (VObj C) = Some (UserFn 0) ->
  closed_heap h = true -> valid_ref h v = true ->
  let receiver := Obj (Some (default_proto (get_value h C "prototype")))
                      None [] in
  New (module_code user) (S n) (VObj C) [v] h
  = Constructor v (h ++ [receiver])
  /\ (forall this, call (module_code user) (S n) (VObj C) this [v] h
                   = Constructor v h)
  /\ (forall K h1, Constructor v (h ++ [receiver]) = Ret K h1 ->
                   K <> VObj (length h) /\ h1 !! length h = Some receiver).
Proof.
  intros HC Hclosed Hv receiver.
  pose proof (code_of_Some_lt _ _ _ HC) as HCl.
  split; [|split].
  - unfold New, construct. rewrite HC.
    unfold bind at 1. rewrite Get_obj by (by apply lookup_lt_is_Some).
    unfold bind at 1, alloc.
    assert (Obj match get_value h C "prototype" with
                | VObj l => Some l
                | _ => Some ObjectPrototype
                end None [] = receiver) as ->.
    { unfold receiver. by destruct (get_value h C "prototype"). }
    unfold bind. rewrite call_S, code_of_app, HC by done.
    cbn [module_code nth].
    destruct (Constructor v (h ++ [receiver])) as [r h1| |] eqn:E; [|done..].
    apply Constructor_Ret_obj in E as (l & -> & _). reflexivity.
  - intros this. rewrite call_S, HC. reflexivity.
  - intros K h1 HK.
    apply Constructor_Ret_inv in HK
      as [(_ & -> & ->)|(o & c & -> & _ & _ & -> & HN)].
    + split.
      * intros ->. apply valid_ref_obj in Hv. lia.
      * rewrite lookup_app_r by lia.
        by replace (length h - length h) with 0 by lia.
    + apply valid_ref_obj in Hv.
      assert (Hc : c <> length h).
      { destruct HN as [_|c pr Hsome Hpv _]; [len|].
        rewrite own_prop_app in Hsome by done.
        assert (Hown : own_value h o "constructor" = Some (VObj c)).
        { unfold own_value. by rewrite Hsome, <- Hpv. }
        apply (closed_own_value _ _ _ _ Hclosed), valid_ref_obj in Hown. lia. }
      split; [congruence|].
      assert (Ho : o < length (h ++ [receiver])) by len.
      rewrite (normalizes_frame _ _ _ _ Ho HN) by (len || lia).
      rewrite lookup_app_r by lia.
      by replace (length h - length h) with 0 by lia.
Qed.

(** [new Constructor({ a: 1 })], the module being loaded after the object
    has been made. *)
Lemma new_Constructor_plain :
  (code_of (plain_heap ++ [function_object (UserFn 0) 4; prototype_object 3])
           (VObj 3) = Some (UserFn 0)
   /\ closed_heap (plain_heap
                     ++ [function_object (UserFn 0) 4; prototype_object 3])
      = true
   /\ valid_ref (plain_heap
                   ++ [function_object (UserFn 0) 4; prototype_object 3])
                (VObj 2) = true)
  /\ New (module_code demo_code) 1 (VObj 3) [VObj 2]
         (plain_heap ++ [function_object (UserFn 0) 4; prototype_object 3])
     = Constructor (VObj 2)
         ((plain_heap ++ [function_object (UserFn 0) 4; prototype_object 3])
            ++ [Obj (Some 4) None []]).
Proof.
  split; [repeat split; reflexivity|].
  apply (new_Constructor demo_code 0
           (plain_heap ++ [function_object (UserFn 0) 4; prototype_object 3])
           3 (VObj 2)); reflexivity.
Defined.

(** X6: loading the module on an object [exports] defines
    [exports.Constructor], a new function running [Constructor], with the
    new function running [extend] as its property [extend]; the other
    properties of [exports] and every other object are as before, so
    [extend] is reachable as [Constructor.extend] only.  Neither function
    uses its receiver.  When [exports] is [undefined] or [null] (the value of
    [this] in strict code or in a module), line 23 throws the runtime's
    TypeError. *)
Theorem module_init_exports
        (user : nat -> callback -> value -> list value -> M value)
        (h : heap) (e : loc) :
  is_Some (h !! e) ->
  exists h',
    module_init (VObj e) h = Ret VUndef h'
    /\ Get (VObj e) "Constructor" h' = Ret (VObj (length h)) h'
    /\ Get (VObj (length h)) "extend" h' = Ret (VObj (S (S (length h)))) h'
    /\ (forall key, key <> "Constructor" ->
                    own_prop h' e key = own_prop h e key)
    /\ (forall l, l < length h -> l <> e -> h' !! l = h !! l)
    /\ (forall n this args,
          call (module_code user) (S n) (VObj (length h)) this args h'
          = Constructor (nth 0 args VUndef) h')
    /\ (forall n this args,
          call (module_code user) (S n) (VObj (S (S (length h)))) this args h'
          = extend args h')
    /\ (forall h0, module_init VUndef h0
                   = Throw EngineTypeError
                       ((h0 ++ [function_object (UserFn 0) (S (length h0));
                                prototype_object (length h0)])
                           ++ [function_object (UserFn 1)
                                               (S (S (S (length h0))));
                               prototype_object (S (S (length h0)))])).
Proof.
  intros He. apply lookup_lt_is_Some in He as Hel.
  set (C := length h).
  set (h1 := h ++ [function_object (UserFn 0) (S C); prototype_object C]).
  set (h2 := h1 ++ [function_object (UserFn 1) (S (S (S C)));
                    prototype_object (S (S C))]).
  assert (Hl1 : length h1 = S (S C)) by (unfold h1, C; len).
  assert (Hl2 : length h2 = S (S (S (S C)))) by (unfold h2; len).
  set (h3 := put h2 e "Constructor" (VObj C)).
  set (h4 := put h3 C "extend" (VObj (S (S C)))).
  assert (HeC : e <> C) by (unfold C; lia).
  assert (Hrun : module_init (VObj e) h = Ret VUndef h4).
  { unfold module_init. unfold bind at 1, new_function at 1. fold C h1.
    unfold bind at 1, new_function at 1. rewrite Hl1. fold h2.
    unfold bind at 1. rewrite Put_obj by (apply lookup_lt_is_Some; lia).
    fold h3. unfold bind at 1. rewrite Put_obj; [done|].
    apply lookup_lt_is_Some. unfold h3. len. }
  assert (HcC : code_of h4 (VObj C) = Some (UserFn 0)).
  { unfold h4, h3. rewrite !code_of_put. unfold h2.
    rewrite code_of_app by lia. unfold h1, code_of.
    rewrite lookup_app_r by (unfold C; lia).
    by replace (C - length h) with 0 by (unfold C; lia). }
  assert (HcE : code_of h4 (VObj (S (S C))) = Some (UserFn 1)).
  { unfold h4, h3. rewrite !code_of_put. unfold h2, code_of.
    rewrite lookup_app_r by lia.
    by replace (S (S C) - length h1) with 0 by lia. }
  exists h4. split; [exact Hrun|].
  split.
  { apply Get_own_value. unfold h4.
    rewrite own_value_put_ne by (left; congruence).
    apply own_value_put_eq. apply lookup_lt_is_Some. lia. }
  split.
  { apply Get_own_value. unfold h4. apply own_value_put_eq.
    apply lookup_lt_is_Some. unfold h3. len. }
  split.
  { intros key Hkey. unfold h4, h3.
    rewrite own_prop_put_ne by (left; congruence).
    rewrite own_prop_put_ne by (right; congruence).
    unfold h2. rewrite own_prop_app by lia.
    unfold h1. by rewrite own_prop_app. }
  split.
  { intros l Hl Hle. unfold h4, h3.
    rewrite put_lookup_ne by (unfold C; lia).
    rewrite put_lookup_ne by congruence.
    unfold h2. rewrite lookup_app_l by lia.
    unfold h1. by rewrite lookup_app_l. }
  split; [intros n this args; by rewrite call_S, HcC|].
  split; [intros n this args; by rewrite call_S, HcE|].
  intros h0. unfold module_init, bind, new_function, Put.
  rewrite length_app. cbn [length].
  by replace (length h0 + 2) with (S (S (length h0))) by lia.
Qed.

(** The module loaded on an empty [exports] object. *)
Lemma module_init_exports_empty :
  is_Some (unloaded_module !! 2)
  /\ module_init (VObj 2) unloaded_module = Ret VUndef loaded_module
  /\ exists h',
       module_init (VObj 2) unloaded_module = Ret VUndef h'
       /\ Get (VObj 2) "Constructor" h' = Ret (VObj 3) h'
       /\ Get (VObj 3) "extend" h' = Ret (VObj 5) h'.
Proof.
  split; [by eexists|]. split; [reflexivity|].
  destruct (module_init_exports demo_code unloaded_module 2)
    as (h' & Hrun & HC & HE & _); [by eexists|].
  exists h'. split; [exact Hrun|]. split; [exact HC | exact HE].
Defined.

(** ** Specifications *)

Lemma is_function_code h v :
  is_function h v = true <-> exists c, code_of h v = Some c.
Proof.
  unfold is_function. destruct (code_of h v); split; eauto; try done.
  by intros [? ?].
Qed.

Lemma is_function_typeof h v :
  is_function h v = true <-> typeof h v = "function".
Proof. rewrite is_function_code. symmetry. apply typeof_function. Qed.

Lemma is_function_lt (h : heap) l :
  is_function h (VObj l) = true -> l < length h.
Proof. intros [c Hc]%is_function_code. by eapply code_of_Some_lt. Qed.

Lemma is_function_eq (h h' : heap) v :
  code_of h' v = code_of h v -> is_function h' v = is_function h v.
Proof. unfold is_function. by intros ->. Qed.

Lemma is_specification_inv h v :
  is_specification h v = true ->
  exists o ob, v = VObj o /\ h !! o = Some ob /\
    (is_function h v = true
     \/ (o_code ob = None /\ is_function h v = false /\
         match props_get (o_props ob) "constructor" with
         | Some pr => exists c, p_value pr = VObj c
                                /\ is_function h (VObj c) = true
         | None => True
         end)).
Proof.
  destruct v as [| | | | |o]; try done. simpl.
  destruct (h !! o) as [ob|] eqn:Ho; [|done]. intros H.
  exists o, ob. split; [done|]. split; [done|].
  unfold is_function at 1 2, code_of. rewrite Ho.
  destruct (o_code ob) as [cd|]; [by left|]. right.
  split; [done|]. split; [done|].
  destruct (props_get (o_props ob) "constructor") as [pr|]; [|done].
  destruct (p_value pr) as [| | | | |c]; try done. eauto.
Qed.

Lemma is_specification_lt (h : heap) o :
  is_specification h (VObj o) = true -> o < length h.
Proof.
  intros (o' & ob & [= <-] & Ho & _)%is_specification_inv.
  by eapply lookup_lt_Some.
Qed.

Lemma is_specification_function h v :
  is_function h v = true -> is_specification h v = true.
Proof.
  intros [c Hc]%is_function_code. destruct v as [| | | | |o]; try done.
  simpl in *. destruct (h !! o) as [ob|]; [|done]. by rewrite Hc.
Qed.

Lemma pass_through_step ty o h r h1 :
  (ty = "function" -> typeof h (VObj o) = "function") ->
  pass_through ty (VObj o) h = Ret r h1 ->
  exists s, r = VObj s /\ normalized h o s h1.
Proof.
  intros Hty HP.
  apply pass_through_Ret_inv in HP
    as [(-> & -> & Hf)|(_ & o' & c & [= <-] & Ht & Ho & -> & HN)].
  - exists o. split; [done|]. left. split; [|done].
    apply is_function_typeof. destruct Hf; eauto.
  - exists c. split; [done|]. right. split; [|done].
    destruct (is_function h (VObj o)) eqn:E; [|done].
    apply is_function_typeof in E. rewrite E in Ht. discriminate.
Qed.

(** A specification is normalized without error, into a function. *)
Lemma specification_step h o :
  is_specification h (VObj o) = true ->
  exists s h1,
    pass_through (typeof h (VObj o)) (VObj o) h = Ret (VObj s) h1
    /\ normalized h o s h1 /\ is_function h1 (VObj s) = true.
Proof.
  intros (o' & ob & [= <-] & Ho & [Hf|(Hc & Hnf & Hctor)])%is_specification_inv.
  - exists o, h. pose proof Hf as Hf'. apply is_function_typeof in Hf' as ->.
    split; [done|]. split; [by left | done].
  - assert (Ht : typeof h (VObj o) = "object").
    { unfold typeof, code_of. by rewrite Ho, Hc. }
    assert (exists s h1, Constructor (VObj o) h = Ret (VObj s) h1
                         /\ is_function h1 (VObj s) = true)
      as (s & h1 & HC & Hs).
    { rewrite (Constructor_object _ _ _ Ho Hc).
      destruct (props_get (o_props ob) "constructor") as [pr|].
      - destruct Hctor as (c & -> & Hfc).
        pose proof (proj2 (lookup_lt_is_Some _ _) (is_function_lt _ _ Hfc))
          as [oc Hoc].
        rewrite Hoc. eexists _, _. split; [done|].
        rewrite <- Hfc. apply is_function_eq. by rewrite !code_of_put.
      - eexists _, _. split; [done|]. apply is_function_code.
        exists NoopFn. rewrite !code_of_put. unfold code_of.
        rewrite lookup_app_r by lia.
        by replace (length h - length h) with 0 by lia. }
    exists s, h1. rewrite Ht. split; [exact HC|]. split; [|done].
    destruct (pass_through_step "object" o h (VObj s) h1) as (s' & [= <-] & ?);
      [done | exact HC | done].
Qed.

Section NormalizedFacts.
Variables (h : heap) (o s : loc) (h1 : heap).
Hypothesis Ho : o < length h.
Hypothesis HS : normalized h o s h1.

Lemma normalized_length : length h <= length h1.
Proof using All.
  destruct HS as [(_ & _ & ->)|[_ HN]]; [done|].
  exact (normalizes_length _ _ _ _ Ho HN).
Qed.

Lemma normalized_code l :
  l < length h -> code_of h1 (VObj l) = code_of h (VObj l).
Proof using All.
  intros Hl. destruct HS as [(_ & _ & ->)|[_ HN]]; [done|].
  exact (normalizes_code _ _ _ _ Ho HN l Hl).
Qed.

Lemma normalized_proto l :
  l < length h -> proto_of h1 l = proto_of h l.
Proof using All.
  intros Hl. destruct HS as [(_ & _ & ->)|[_ HN]]; [done|].
  exact (normalizes_proto _ _ _ _ Ho HN l Hl).
Qed.

Lemma normalized_result : s < length h1.
Proof using All.
  destruct HS as [(_ & -> & ->)|[_ HN]]; [done|].
  exact (normalizes_result _ _ _ _ Ho HN).
Qed.

Lemma normalized_frame l :
  l < length h -> l <> o -> l <> s -> h1 !! l = h !! l.
Proof using All.
  intros Hl Hlo Hls. destruct HS as [(_ & _ & ->)|[_ HN]]; [done|].
  exact (normalizes_frame _ _ _ _ Ho HN l Hl Hlo Hls).
Qed.

End NormalizedFacts.

Lemma is_specification_app (h t : heap) v :
  is_specification h v = true -> is_specification (h ++ t) v = true.
Proof.
  intros (o & ob & -> & Ho & H)%is_specification_inv.
  apply lookup_lt_Some in Ho as Hlt.
  simpl. rewrite lookup_app_l, Ho by done.
  destruct H as [Hf|(Hc & _ & Hctor)].
  - apply is_function_code in Hf as [cd Hcd]. unfold code_of in Hcd.
    rewrite Ho in Hcd. by rewrite Hcd.
  - rewrite Hc. destruct (props_get (o_props ob) "constructor") as [pr|];
      [|done].
    destruct Hctor as (c & -> & Hfc). rewrite <- Hfc.
    apply is_function_eq, code_of_app. by apply is_function_lt.
Qed.

Lemma is_function_step h o s h1 l :
  o < length h -> normalized h o s h1 -> is_function h (VObj l) = true ->
  is_function h1 (VObj l) = true.
Proof.
  intros Ho HS Hf. rewrite <- Hf. apply is_function_eq.
  apply (normalized_code _ _ _ _ Ho HS). by apply is_function_lt.
Qed.

(** A specification is one still once another has been normalized. *)
Lemma is_specification_step h o s h1 w :
  o < length h -> normalized h o s h1 -> is_function h1 (VObj s) = true ->
  is_specification h w = true -> is_specification h1 w = true.
Proof.
  intros Ho HS Hs Hw. pose proof HS as HS'.
  destruct HS' as [(_ & _ & ->)|[Hnf HN]]; [done|].
  apply is_specification_inv in Hw as (l & ob & -> & Hl & H).
  apply lookup_lt_Some in Hl as Hlt.
  destruct H as [Hf|(Hc & _ & Hctor)].
  { apply is_specification_function.
    exact (is_function_step _ _ _ _ _ Ho HS Hf). }
  destruct (decide (l = s)) as [->|Hls].
  { by apply is_specification_function. }
  assert (Hcode : code_of h1 (VObj l) = None).
  { rewrite (normalizes_code _ _ _ _ Ho HN) by done.
    unfold code_of. by rewrite Hl. }
  assert (is_Some (h1 !! l)) as [ob1 Hl1].
  { apply lookup_lt_is_Some.
    pose proof (normalizes_length _ _ _ _ Ho HN). lia. }
  simpl. rewrite Hl1. unfold code_of in Hcode. rewrite Hl1 in Hcode.
  rewrite Hcode.
  destruct (decide (l = o)) as [->|Hlo].
  - pose proof (normalizes_constructor _ _ _ _ Ho HN) as Hback.
    unfold own_value, own_prop in Hback. rewrite Hl1 in Hback.
    destruct (props_get (o_props ob1) "constructor") as [pr|]; [|done].
    simpl in Hback. injection Hback as ->. done.
  - rewrite (normalizes_frame _ _ _ _ Ho HN) in Hl1 by done.
    rewrite Hl in Hl1. injection Hl1 as <-.
    destruct (props_get (o_props ob) "constructor") as [pr|]; [|done].
    destruct Hctor as (c & -> & Hfc).
    exact (is_function_step _ _ _ _ _ Ho HS Hfc).
Qed.

Lemma normalized_older (h hx : heap) o s hx1 :
  o < length h -> length h + 2 <= length hx ->
  (forall c, is_function hx (VObj o) = false ->
             own_value hx o "constructor" = Some (VObj c) ->
             c < length h \/ length h + 2 <= c) ->
  normalized hx o s hx1 -> s < length h \/ length h + 2 <= s.
Proof.
  intros Ho Hlen Hctor [(_ & -> & _)|[Hnf HN]]; [by left|].
  destruct HN as [_|c pr Hsome Hpv _]; [right; lia|].
  apply Hctor; [done|]. unfold own_value. by rewrite Hsome, <- Hpv.
Qed.

Lemma specification_constructor_older (h : heap) o c :
  is_specification h (VObj o) = true -> is_function h (VObj o) = false ->
  own_value h o "constructor" = Some (VObj c) -> is_function h (VObj c) = true.
Proof.
  intros (o' & ob & [= <-] & Ho & [Hf|(_ & _ & Hctor)])%is_specification_inv
         Hnf;
    [congruence|].
  unfold own_value, own_prop. rewrite Ho.
  destruct (props_get (o_props ob) "constructor") as [pr|]; [|done].
  destruct Hctor as (c' & Hpv & Hfc). simpl. rewrite Hpv. by intros [= <-].
Qed.

Lemma entry_lookup (h : heap) l : l < length h -> entry_heap h !! l = h !! l.
Proof. intros Hl. unfold entry_heap. by apply lookup_app_l. Qed.

Lemma entry_own_prop (h : heap) l k :
  l < length h -> own_prop (entry_heap h) l k = own_prop h l k.
Proof. intros Hl. apply own_prop_lookup_eq. by apply entry_lookup. Qed.

Lemma entry_own_value (h : heap) l k :
  l < length h -> own_value (entry_heap h) l k = own_value h l k.
Proof. intros Hl. apply own_value_lookup_eq. by apply entry_lookup. Qed.

Lemma entry_code (h : heap) l :
  l < length h -> code_of (entry_heap h) (VObj l) = code_of h (VObj l).
Proof. intros Hl. unfold entry_heap. by apply code_of_app. Qed.

Lemma entry_is_function (h : heap) l :
  l < length h -> is_function (entry_heap h) (VObj l) = is_function h (VObj l).
Proof. intros Hl. by apply is_function_eq, entry_code. Qed.

Lemma normalized_constructor_other h o s h1 l :
  normalized h o s h1 -> l < length h -> l <> o ->
  own_value h1 l "constructor" = own_value h l "constructor".
Proof.
  intros [(_ & _ & ->)|[_ HN]] Hl Hlo; [done|].
  by eapply normalizes_constructor_other.
Qed.

(** The anatomy of a successful call of [extend] on two specifications. *)
Lemma extend_anatomy (h : heap) os ot extra K h' :
  is_specification h (VObj os) = true ->
  is_specification h (VObj ot) = true ->
  extend (VObj os :: VObj ot :: extra) h = Ret K h' ->
  exists s k h1 h2,
    K = VObj k
    /\ h' = built_heap h2 (length h) s k (typeof h (VObj ot))
    /\ normalized (entry_heap h) os s h1 /\ normalized h1 ot k h2
    /\ is_function h1 (VObj s) = true /\ is_function h2 (VObj k) = true
    /\ (s < length h \/ length h + 2 <= s)
    /\ (k < length h \/ length h + 2 <= k)
    /\ os < length h /\ ot < length h
    /\ length h + 2 <= length h1 /\ length h1 <= length h2
    /\ s < length h1 /\ k < length h2.
Proof.
  intros Hos Hot HE.
  pose proof (is_specification_lt _ _ Hos) as Hosl.
  pose proof (is_specification_lt _ _ Hot) as Hotl.
  pose proof (entry_length h) as Hl0.
  apply extend_Ret_inv in HE
    as (_ & s & k & h1 & h2 & HPs & HPt & Hs & Hk & Hf & Hl1 & Hl2 & Hcode
        & -> & ->).
  cbn [nth] in HPs, HPt |- *.
  assert (Hty : typeof (entry_heap h) (VObj ot) = typeof h (VObj ot)).
  { apply typeof_code_eq. by apply entry_code. }
  destruct (pass_through_step _ _ _ _ _ (fun E => E) HPs)
    as (s' & [= <-] & HSs).
  assert (Hos0 : os < length (entry_heap h)) by lia.
  pose proof (normalized_code _ _ _ _ Hos0 HSs) as Hcode1.
  assert (Hfun : typeof (entry_heap h) (VObj ot) = "function" ->
                 typeof h1 (VObj ot) = "function").
  { intros E. rewrite <- E. apply typeof_code_eq, Hcode1. lia. }
  destruct (pass_through_step _ _ _ _ _ Hfun HPt) as (k' & [= <-] & HSt).
  (* the results are functions *)
  destruct (specification_step (entry_heap h) os
              ltac:(by apply is_specification_app))
    as (s' & h1' & HPs' & _ & Hfs).
  rewrite HPs in HPs'. injection HPs' as <- <-.
  assert (Hot1 : is_specification h1 (VObj ot) = true).
  { eapply is_specification_step; [exact Hos0 | exact HSs | exact Hfs|].
    by apply is_specification_app. }
  destruct (specification_step h1 ot Hot1) as (k' & h2' & HPt' & _ & Hfk).
  assert (typeof h1 (VObj ot) = typeof (entry_heap h) (VObj ot)) as Hty1.
  { apply typeof_code_eq, Hcode1. lia. }
  rewrite Hty1, HPt in HPt'. injection HPt' as <- <-.
  (* neither is the link function *)
  assert (Hs_old : s < length h \/ length h + 2 <= s).
  { apply (normalized_older h (entry_heap h) os s h1); [done | lia | | done].
    intros c Hnf Hc. left. rewrite entry_own_value in Hc by done.
    rewrite entry_is_function in Hnf by done.
    apply is_function_lt.
    exact (specification_constructor_older _ _ _ Hos Hnf Hc). }
  assert (Hk_old : k < length h \/ length h + 2 <= k).
  { apply (normalized_older h h1 ot k h2); [done | lia | | done].
    intros c Hnf Hc.
    assert (Hnf0 : is_function h (VObj ot) = false).
    { rewrite <- Hnf, <- (entry_is_function h ot) by done.
      symmetry. apply is_function_eq, Hcode1. lia. }
    destruct (decide (ot = os)) as [->|Hne].
    - destruct HSs as [(Hfos & _ & _)|[_ HN]].
      { rewrite entry_is_function in Hfos by done. congruence. }
      rewrite (normalizes_constructor _ _ _ _ Hos0 HN) in Hc.
      by injection Hc as <-.
    - rewrite (normalized_constructor_other _ _ _ _ _ HSs) in Hc
        by (done || lia).
      rewrite entry_own_value in Hc by done. left.
      apply is_function_lt.
      exact (specification_constructor_older _ _ _ Hot Hnf0 Hc). }
  exists s, k, h1, h2. rewrite Hty.
  pose proof (normalized_result _ _ _ _ Hos0 HSs).
  repeat split; try done; lia.
Qed.

Lemma normalizes_own_constructor hx o c hx1 :
  normalizes hx o c hx1 ->
  match own_value hx o "constructor" with
  | Some v => v = VObj c
  | None => c = length hx /\ code_of hx1 (VObj c) = Some NoopFn
            /\ proto_of hx1 c = Some FunctionPrototype
  end.
Proof.
  intros [Hnone|c' pr Hsome Hpv _]; unfold own_value.
  - rewrite Hnone. cbn [option_map]. split; [done|].
    rewrite !code_of_put, !proto_of_put. unfold code_of, proto_of.
    rewrite lookup_app_r by lia.
    by replace (length hx - length hx) with 0 by lia.
  - rewrite Hsome. simpl. done.
Qed.

Lemma normalized_is_function_false hx o s hx1 :
  normalized hx o s hx1 -> is_function hx (VObj o) = false ->
  normalizes hx o s hx1.
Proof. intros [(Hf & _)|[_ HN]] Hnf; [congruence | done]. Qed.

Lemma normalized_is_function_true hx o s hx1 :
  normalized hx o s hx1 -> is_function hx (VObj o) = true -> s = o /\ hx1 = hx.
Proof. intros [(_ & ? & ?)|[Hnf _]] Hf; [done | congruence]. Qed.

(** On two specifications [extend] returns. *)
Lemma extend_specifications_return (h : heap) os ot extra :
  is_specification h (VObj os) = true ->
  is_specification h (VObj ot) = true ->
  exists K h', extend (VObj os :: VObj ot :: extra) h = Ret K h'.
Proof.
  intros Hos Hot.
  pose proof (is_specification_lt _ _ Hos) as Hosl.
  pose proof (is_specification_lt _ _ Hot) as Hotl.
  pose proof (entry_length h) as Hl0.
  assert (Hos0 : os < length (entry_heap h)) by lia.
  rewrite extend_unfold. cbn [nth length Nat.ltb Nat.leb].
  destruct (specification_step (entry_heap h) os
              ltac:(by apply is_specification_app))
    as (s & h1 & HPs & HSs & Hfs).
  unfold bind at 1. rewrite HPs.
  assert (Hot1 : is_specification h1 (VObj ot) = true).
  { eapply is_specification_step; [exact Hos0 | exact HSs | exact Hfs|].
    by apply is_specification_app. }
  destruct (specification_step h1 ot Hot1) as (k & h2 & HPt & HSt & Hfk).
  assert (typeof h1 (VObj ot) = typeof (entry_heap h) (VObj ot)) as Hty1.
  { apply typeof_code_eq, (normalized_code _ _ _ _ Hos0 HSs). lia. }
  rewrite Hty1 in HPt. unfold bind at 1. rewrite HPt.
  pose proof (normalized_length _ _ _ _ Hos0 HSs) as Hl1.
  assert (Hot1l : ot < length h1) by lia.
  pose proof (normalized_length _ _ _ _ Hot1l HSt) as Hl2.
  pose proof (normalized_result _ _ _ _ Hos0 HSs) as Hs.
  pose proof (normalized_result _ _ _ _ Hot1l HSt) as Hk.
  rewrite extend_build_eq; [eauto| | |].
  - apply lookup_lt_is_Some. lia.
  - by apply lookup_lt_is_Some.
  - rewrite (normalized_code _ _ _ _ Hot1l HSt) by lia.
    rewrite (normalized_code _ _ _ _ Hos0 HSs) by lia.
    rewrite entry_link_code. eauto.
Qed.

(** X7: on two specifications (functions, or objects that inherit the
    built-in [hasOwnProperty] and whose own [constructor], when present, is
    a function) [extend] returns a function:
    the target itself when it is a function, the own [constructor] of the
    target specification when it has one, and otherwise a no-op function
    that did not exist before the call. *)
Theorem extend_returns_constructor (h : heap) (source target : value)
        (extra : list value) :
  is_specification h source = true ->
  is_specification h target = true ->
  answers_hasOwnProperty h source = true ->
  answers_hasOwnProperty h target = true ->
  exists k h',
    extend (source :: target :: extra) h = Ret (VObj k) h'
    /\ typeof h' (VObj k) = "function"
    /\ (typeof h target = "function" -> VObj k = target)
    /\ (forall t, target = VObj t -> typeof h target = "object" ->
          match own_value h t "constructor" with
          | Some c => VObj k = c
          | None => h !! k = None /\ code_of h' (VObj k) = Some NoopFn
          end).
Proof.
  intros Hos Hot _ _.
  pose proof Hos as (os & obs & -> & Hobs & _)%is_specification_inv.
  pose proof Hot as (ot & obt & -> & Hobt & _)%is_specification_inv.
  destruct (extend_specifications_return h os ot extra Hos Hot)
    as (K & h' & HE).
  destruct (extend_anatomy _ _ _ _ _ _ Hos Hot HE)
    as (s & k & h1 & h2 & -> & -> & HSs & HSt & Hfs & Hfk & Hs_old & Hk_old
        & Hosl & Hotl & Hl1 & Hl2 & Hs & Hk).
  pose proof (entry_length h) as Hl0.
  assert (Hos0 : os < length (entry_heap h)) by lia.
  assert (Hot1l : ot < length h1) by lia.
  assert (Hf : length h < length h2) by lia.
  assert (Hs2 : s < length h2) by lia.
  set (ty := typeof h (VObj ot)) in *.
  assert (Hfun : forall l, l < length h ->
            is_function h1 (VObj l) = is_function h (VObj l)).
  { intros l Hl. rewrite <- (entry_is_function h l) by done.
    apply is_function_eq, (normalized_code _ _ _ _ Hos0 HSs). lia. }
  exists k, (built_heap h2 (length h) s k ty). split; [exact HE|].
  split.
  { apply is_function_typeof. rewrite <- Hfk.
    apply is_function_eq. by apply built_code. }
  split.
  { intros Ht. apply is_function_typeof in Ht.
    rewrite <- Hfun in Ht by done.
    by destruct (normalized_is_function_true _ _ _ _ HSt Ht) as [-> _]. }
  intros t [= <-] Ht.
  assert (Hnf : is_function h (VObj ot) = false).
  { destruct (is_function h (VObj ot)) eqn:E; [|done].
    apply is_function_typeof in E. unfold ty in Ht. rewrite E in Ht.
    discriminate. }
  pose proof Hnf as Hnf1. rewrite <- Hfun in Hnf1 by done.
  pose proof (normalized_is_function_false _ _ _ _ HSt Hnf1) as HNt.
  pose proof (normalizes_own_constructor _ _ _ _ HNt) as Hkc.
  assert (Hcode : forall cd, code_of h2 (VObj k) = Some cd ->
            code_of (built_heap h2 (length h) s k ty) (VObj k) = Some cd).
  { intros cd <-. by apply built_code. }
  destruct (decide (ot = os)) as [->|Hne].
  - (* the same object as source and target *)
    pose proof Hnf as Hnf0. rewrite <- entry_is_function in Hnf0 by done.
    pose proof (normalized_is_function_false _ _ _ _ HSs Hnf0) as HNs.
    pose proof (normalizes_own_constructor _ _ _ _ HNs) as Hsc.
    rewrite entry_own_value in Hsc by done.
    rewrite (normalizes_constructor _ _ _ _ Hos0 HNs) in Hkc.
    injection Hkc as <-.
    destruct (own_value h os "constructor") as [c|]; [by f_equal|].
    destruct Hsc as (-> & Hnoop & _).
    split; [apply lookup_ge_None_2; lia|].
    apply Hcode. rewrite (normalizes_code _ _ _ _ Hot1l HNt) by done.
    exact Hnoop.
  - rewrite (normalized_constructor_other _ _ _ _ _ HSs) in Hkc
      by (done || lia).
    rewrite entry_own_value in Hkc by done.
    destruct (own_value h ot "constructor") as [c|]; [done|].
    destruct Hkc as (-> & Hnoop & _).
    split; [apply lookup_ge_None_2; lia | by apply Hcode].
Qed.

(** [extend(Source, spec)] on [demo_heap] returns [Target], the own
    [constructor] of the specification. *)
Lemma extend_returns_constructor_demo :
  (is_specification demo_heap (VObj 2) = true
   /\ is_specification demo_heap (VObj 4) = true
   /\ answers_hasOwnProperty demo_heap (VObj 2) = true
   /\ answers_hasOwnProperty demo_heap (VObj 4) = true)
  /\ exists k h',
       extend [VObj 2; VObj 4] demo_heap = Ret (VObj k) h'
       /\ typeof h' (VObj k) = "function"
       /\ (typeof demo_heap (VObj 4) = "function" -> VObj k = VObj 4)
       /\ (forall t, VObj 4 = VObj t -> typeof demo_heap (VObj 4) = "object" ->
             match own_value demo_heap t "constructor" with
             | Some c => VObj k = c
             | None => demo_heap !! k = None
                       /\ code_of h' (VObj k) = Some NoopFn
             end).
Proof.
  split; [repeat split; reflexivity|].
  apply (extend_returns_constructor demo_heap (VObj 2) (VObj 4) []);
    reflexivity.
Defined.

(** ** Distinct keys *)








(** A function keeps every property but [prototype]. *)
Lemma normalized_function_props hx o s hx1 l key :
  o < length hx -> normalized hx o s hx1 -> is_function hx1 (VObj l) = true ->
  key <> "prototype" -> own_prop hx1 l key = own_prop hx l key.
Proof.
  intros Ho HS Hf Hkey. pose proof HS as [(_ & _ & ->)|[Hnf HN]]; [done|].
  assert (Hlo : l <> o).
  { intros ->.
    assert (is_function hx1 (VObj o) = is_function hx (VObj o)); [|congruence].
    apply is_function_eq. exact (normalizes_code _ _ _ _ Ho HN o Ho). }
  destruct (decide (l = s)) as [->|Hls].
  { apply (normalizes_constructor_props _ _ _ _ Ho HN);
      [done | left; congruence]. }
  destruct (decide (l < length hx)) as [Hl|Hl].
  { apply own_prop_lookup_eq.
    exact (normalizes_frame _ _ _ _ Ho HN l Hl Hlo Hls). }
  exfalso. apply is_function_code in Hf as [cd Hcd].
  destruct HN as [_|c pr _ _ Hc].
  - rewrite !code_of_put in Hcd. unfold code_of in Hcd.
    rewrite lookup_app_r in Hcd by lia.
    destruct (l - length hx) as [|[|j]] eqn:E; [lia | done | done].
  - rewrite !code_of_put in Hcd. apply code_of_Some_lt in Hcd. lia.
Qed.

(** ** The prototype [extend] builds from an object specification *)


Lemma own_prop_copied_ne h k P ty l key :
  l <> P -> own_prop (copied h k P ty) l key = own_prop h l key.
Proof. intros Hl. apply own_prop_lookup_eq. by apply copied_lookup_ne. Qed.

Section BuiltMore.
Variables (h : heap) (f s k : loc) (ty : string).
Hypothesis Hf : f < length h.
Hypothesis Hs : s < length h.
Hypothesis Hk : k < length h.

Lemma built_proto l :
  l < length h -> proto_of (built_heap h f s k ty) l = proto_of h l.
Proof using All.
  intros Hl. unfold built_heap. rewrite !proto_of_put.
  rewrite proto_of_app by len. rewrite proto_of_put, copied_proto.
  rewrite proto_of_app by len. by rewrite !proto_of_put.
Qed.

(** The constructor keeps every property but [parent] and [prototype]. *)
Lemma built_constructor_props key :
  key <> "parent" -> key <> "prototype" ->
  own_prop (built_heap h f s k ty) k key = own_prop h k key.
Proof using All.
  intros Hk1 Hk2. unfold built_heap.
  rewrite own_prop_put_ne by (right; congruence).
  rewrite own_prop_put_ne by (left; lia).
  rewrite own_prop_app by len.
  rewrite own_prop_put_ne by (left; lia).
  rewrite own_prop_copied_ne by lia.
  rewrite own_prop_app by len.
  rewrite own_prop_put_ne by (right; congruence).
  by rewrite own_prop_put_ne by (right; congruence).
Qed.

End BuiltMore.







Lemma normalized_allocated hx o s hx1 l :
  normalized hx o s hx1 -> length hx <= l -> is_function hx1 (VObj l) = true ->
  code_of hx1 (VObj l) = Some NoopFn
  /\ proto_of hx1 l = Some FunctionPrototype.
Proof.
  intros [(_ & _ & ->)|[_ HN]] Hl Hf.
  { apply is_function_lt in Hf. lia. }
  apply is_function_code in Hf as [cd Hcd].
  destruct HN as [_|c pr _ _ Hc].
  - rewrite !code_of_put in Hcd |- *. rewrite !proto_of_put.
    unfold code_of, proto_of in *.
    rewrite !lookup_app_r in Hcd |- * by lia.
    destruct (l - length hx) as [|[|j]] eqn:E; [done | done | done].
  - rewrite !code_of_put in Hcd. apply code_of_Some_lt in Hcd. lia.
Qed.

(** X10: of the objects that existed before a successful call of [extend],
    only these are written to: the target specification, the constructor
    returned, and, when the source is an object specification, that object
    and the function it names as its own [constructor].  With a function as
    source, neither it nor its prototype is touched, unless it is also the
    constructor returned. *)
Theorem extend_writes_only (h : heap) (source target : value)
        (extra : list value) (K : value) (h' : heap) :
  is_specification h source = true ->
  is_specification h target = true ->
  extend (source :: target :: extra) h = Ret K h' ->
  forall l, l < length h -> VObj l <> target -> VObj l <> K ->
    (typeof h source = "function"
     \/ (VObj l <> source
         /\ forall o, source = VObj o ->
                      own_value h o "constructor" <> Some (VObj l))) ->
    h' !! l = h !! l.
Proof.
  intros Hos Hot HE l Hl Hlt HlK Hsrc.
  pose proof Hos as (os & obs & -> & _ & _)%is_specification_inv.
  pose proof Hot as (ot & obt & -> & _ & _)%is_specification_inv.
  destruct (extend_anatomy _ _ _ _ _ _ Hos Hot HE)
    as (s & k & h1 & h2 & -> & -> & HSs & HSt & Hfs & Hfk & Hs_old & Hk_old
        & Hosl & Hotl & Hl1 & Hl2 & Hs & Hk).
  pose proof (entry_length h) as Hl0.
  assert (Hos0 : os < length (entry_heap h)) by lia.
  assert (Hot1 : ot < length h1) by lia.
  rewrite built_frame by (lia || congruence).
  rewrite (normalized_frame _ _ _ _ Hot1 HSt) by (lia || congruence).
  rewrite <- (entry_lookup h l) by done.
  destruct HSs as [(_ & _ & ->)|[Hnf HN]]; [done|].
  destruct Hsrc as [Hfun|[Hlo Hctor]].
  { apply is_function_typeof in Hfun.
    rewrite entry_is_function in Hnf by done. congruence. }
  apply (normalizes_frame _ _ _ _ Hos0 HN); [lia | congruence |].
  pose proof (normalizes_own_constructor _ _ _ _ HN) as Hsc.
  rewrite entry_own_value in Hsc by done.
  destruct (own_value h os "constructor") as [c|] eqn:Hc.
  - subst c. intros ->. by apply (Hctor os).
  - destruct Hsc as [-> _]. lia.
Qed.

(** [extend(Source, spec)] on [demo_heap] leaves [Source], object 2, and its
    prototype, object 3, as they were. *)
Lemma extend_writes_only_demo :
  (is_specification demo_heap (VObj 2) = true
   /\ is_specification demo_heap (VObj 4) = true
   /\ extend [VObj 2; VObj 4] demo_heap = Ret (VObj 5) demo_extended)
  /\ demo_extended !! 2 = demo_heap !! 2
  /\ demo_extended !! 3 = demo_heap !! 3.
Proof.
  split; [repeat split; reflexivity|].
  split.
  - apply (extend_writes_only demo_heap (VObj 2) (VObj 4) [] (VObj 5)
             demo_extended);
      [reflexivity | reflexivity | reflexivity | vm_compute; lia
      | discriminate | discriminate | by left].
  - apply (extend_writes_only demo_heap (VObj 2) (VObj 4) [] (VObj 5)
             demo_extended);
      [reflexivity | reflexivity | reflexivity | vm_compute; lia
      | discriminate | discriminate | by left].
Defined.

(** X11: [extend] writes the two properties [parent] and [prototype] on the
    constructor it returns and nothing else: a function given as target, or
    named by the target specification, keeps its body, its prototype link
    and every other property of its own, and a constructor the call creates
    is a no-op function with these two properties only.  Nothing is copied
    from the source constructor. *)
Theorem extend_keeps_constructor_properties (h : heap)
        (source target : value) (extra : list value) (K : value)
        (h' : heap) :
  is_specification h source = true ->
  is_specification h target = true ->
  extend (source :: target :: extra) h = Ret K h' ->
  exists k,
    K = VObj k
    /\ (forall key, key <> "parent" -> key <> "prototype" ->
                    own_prop h' k key = own_prop h k key)
    /\ (k < length h ->
        code_of h' K = code_of h K /\ proto_of h' k = proto_of h k)
    /\ (length h <= k ->
        code_of h' K = Some NoopFn
        /\ proto_of h' k = Some FunctionPrototype).
Proof.
  intros Hos Hot HE.
  pose proof Hos as (os & obs & -> & _ & _)%is_specification_inv.
  pose proof Hot as (ot & obt & -> & _ & _)%is_specification_inv.
  destruct (extend_anatomy _ _ _ _ _ _ Hos Hot HE)
    as (s & k & h1 & h2 & -> & -> & HSs & HSt & Hfs & Hfk & Hs_old & Hk_old
        & Hosl & Hotl & Hl1 & Hl2 & Hs & Hk).
  pose proof (entry_length h) as Hl0.
  assert (Hos0 : os < length (entry_heap h)) by lia.
  assert (Hot1 : ot < length h1) by lia.
  assert (Hf : length h < length h2) by lia.
  assert (Hs2 : s < length h2) by lia.
  set (ty := typeof h (VObj ot)).
  exists k. split; [done|]. split; [|split].
  - intros key Hk1 Hk2.
    rewrite built_constructor_props by done.
    rewrite (normalized_function_props _ _ _ _ _ _ Hot1 HSt Hfk Hk2).
    destruct (decide (k < length h1)) as [Hk1l|Hk1l].
    + assert (Hfk1 : is_function h1 (VObj k) = true).
      { rewrite <- Hfk. symmetry. apply is_function_eq.
        exact (normalized_code _ _ _ _ Hot1 HSt k Hk1l). }
      rewrite (normalized_function_props _ _ _ _ _ _ Hos0 HSs Hfk1 Hk2).
      destruct Hk_old as [Hold|Hnew]; [by apply entry_own_prop|].
      unfold own_prop. rewrite !lookup_ge_None_2 by lia. done.
    + unfold own_prop. rewrite !lookup_ge_None_2 by lia. done.
  - intros Hold. split.
    + rewrite built_code by done.
      rewrite (normalized_code _ _ _ _ Hot1 HSt) by lia.
      rewrite (normalized_code _ _ _ _ Hos0 HSs) by lia.
      by apply entry_code.
    + rewrite built_proto by done.
      rewrite (normalized_proto _ _ _ _ Hot1 HSt) by lia.
      rewrite (normalized_proto _ _ _ _ Hos0 HSs) by lia.
      unfold entry_heap. by apply proto_of_app.
  - intros Hnew.
    assert (code_of h2 (VObj k) = Some NoopFn
            /\ proto_of h2 k = Some FunctionPrototype) as [Hc Hp].
    { destruct (decide (k < length h1)) as [Hk1l|Hk1l].
      - assert (Hfk1 : is_function h1 (VObj k) = true).
        { rewrite <- Hfk. symmetry. apply is_function_eq.
          exact (normalized_code _ _ _ _ Hot1 HSt k Hk1l). }
        rewrite (normalized_code _ _ _ _ Hot1 HSt) by done.
        rewrite (normalized_proto _ _ _ _ Hot1 HSt) by done.
        apply (normalized_allocated _ _ _ _ _ HSs); [lia | done].
      - apply (normalized_allocated _ _ _ _ _ HSt); [lia | done]. }
    split; [by rewrite built_code | by rewrite built_proto].
Qed.

(** [Target] after [extend(Source, spec)] on [demo_heap]. *)
Lemma extend_keeps_constructor_properties_demo :
  (is_specification demo_heap (VObj 2) = true
   /\ is_specification demo_heap (VObj 4) = true
   /\ extend [VObj 2; VObj 4] demo_heap = Ret (VObj 5) demo_extended)
  /\ exists k,
       VObj 5 = VObj k
       /\ (forall key, key <> "parent" -> key <> "prototype" ->
                       own_prop demo_extended k key = own_prop demo_heap k key)
       /\ (k < length demo_heap ->
           code_of demo_extended (VObj 5) = code_of demo_heap (VObj 5)
           /\ proto_of demo_extended k = proto_of demo_heap k)
       /\ (length demo_heap <= k ->
           code_of demo_extended (VObj 5) = Some NoopFn
           /\ proto_of demo_extended k = Some FunctionPrototype).
Proof.
  split; [repeat split; reflexivity|].
  apply (extend_keeps_constructor_properties demo_heap (VObj 2) (VObj 4) []
           (VObj 5) demo_extended); reflexivity.
Defined.

(** ** Errors of [extend] *)

Lemma Constructor_Throw_app v (h t : heap) e h1 :
  Constructor v h = Throw e h1 ->
  Constructor v (h ++ t) = Throw e (h ++ t)
  /\ is_function (h ++ t) v = false.
Proof.
  intros HC. destruct v as [| | | | |o];
    try (apply Constructor_primitive_Throw in HC as (_ & Hall & _);
         [by rewrite Hall | done]).
  destruct (h !! o) as [ob|] eqn:Ho.
  2:{ unfold Constructor, bind, Typeof, typeof, code_of in HC.
      rewrite Ho in HC. simpl in HC. unfold HasOwnProperty in HC.
      by rewrite Ho in HC. }
  apply lookup_lt_Some in Ho as Hlt.
  assert (Ho' : (h ++ t) !! o = Some ob) by (by rewrite lookup_app_l).
  destruct (o_code ob) as [c|] eqn:Hc.
  { rewrite Constructor_function in HC; [done|].
    unfold typeof, code_of. by rewrite Ho, Hc. }
  split.
  - rewrite (Constructor_object _ _ _ Ho Hc) in HC.
    rewrite (Constructor_object _ _ _ Ho' Hc).
    destruct (props_get (o_props ob) "constructor") as [pr|]; [|done].
    destruct (p_value pr) as [| | | | |c']; try (by injection HC as <- _).
    by destruct (h !! c').
  - unfold is_function, code_of. by rewrite Ho', Hc.
Qed.

Lemma pass_through_not_function ty v h :
  is_function h v = false -> ty = typeof h v ->
  pass_through ty v h = Constructor v h.
Proof.
  intros Hnf ->. unfold pass_through.
  destruct (String.eqb (typeof h v) "function") eqn:E; [|done].
  apply String.eqb_eq, is_function_typeof in E. congruence.
Qed.

Lemma specification_not_Throw h v e h1 :
  is_specification h v = true -> Constructor v h = Throw e h1 -> False.
Proof.
  intros Hv HC.
  pose proof Hv as (o & ob & -> & _ & _)%is_specification_inv.
  destruct (specification_step h o Hv) as (s & h2 & HP & _ & _).
  destruct (is_function h (VObj o)) eqn:Hf.
  - apply is_function_typeof in Hf.
    rewrite Constructor_function in HC by done. done.
  - rewrite pass_through_not_function in HP by done. congruence.
Qed.

(** What [Constructor] throws on an invalid argument is not changed by the
    normalization of a specification. *)
Lemma Constructor_Throw_step hx o s hx1 v e :
  o < length hx -> normalized hx o s hx1 -> is_function hx1 (VObj s) = true ->
  is_specification hx (VObj o) = true ->
  Constructor v hx = Throw e hx ->
  Constructor v hx1 = Throw e hx1 /\ is_function hx1 v = false.
Proof.
  intros Ho HS Hs Hspec HC.
  pose proof HS as [(_ & _ & ->)|[Hnf HN]].
  { split; [done|].
    pose proof (Constructor_Throw_app v hx [] e hx HC) as [_ Hnf].
    by rewrite app_nil_r in Hnf. }
  destruct v as [| | | | |l];
    try (apply Constructor_primitive_Throw in HC as (_ & Hall & _);
         [by rewrite Hall | done]).
  destruct (hx !! l) as [ob|] eqn:Hl.
  2:{ unfold Constructor, bind, Typeof, typeof, code_of in HC.
      rewrite Hl in HC. simpl in HC. unfold HasOwnProperty in HC.
      by rewrite Hl in HC. }
  apply lookup_lt_Some in Hl as Hlt.
  destruct (o_code ob) as [c|] eqn:Hc.
  { rewrite Constructor_function in HC; [done|].
    unfold typeof, code_of. by rewrite Hl, Hc. }
  assert (Hlo : l <> o).
  { intros ->. by eapply specification_not_Throw. }
  assert (Hcode1 : code_of hx1 (VObj l) = None).
  { rewrite (normalizes_code _ _ _ _ Ho HN l Hlt). unfold code_of.
    by rewrite Hl, Hc. }
  assert (Hls : l <> s).
  { intros ->. apply is_function_code in Hs as [cd Hcd]. congruence. }
  pose proof (normalizes_frame _ _ _ _ Ho HN l Hlt Hlo Hls) as Hl1.
  rewrite Hl in Hl1.
  split; [|unfold is_function; by rewrite Hcode1].
  rewrite (Constructor_object _ _ _ Hl Hc) in HC.
  rewrite (Constructor_object _ _ _ Hl1 Hc).
  destruct (props_get (o_props ob) "constructor") as [pr|]; [|done].
  destruct (p_value pr) as [| | | | |c']; try (by injection HC as <-).
  by destruct (hx !! c').
Qed.

(** X12: with two arguments or more, [extend] throws what [Constructor]
    throws on the first argument that is not a specification, the source
    before the target: an invalid source is reported whatever the target
    is, and, the source being a specification that is a function or
    inherits the built-in [hasOwnProperty], an invalid target is reported
    with the error [Constructor] gives for it.  An argument that is
    [undefined] is reported by the ReferenceError, not by the error for a
    missing argument. *)
Theorem extend_first_invalid_argument (h : heap) (source target : value)
        (extra : list value) (e : js_error) :
  (Constructor source h = Throw e h ->
   extend (source :: target :: extra) h = Throw e (entry_heap h))
  /\ (is_specification h source = true ->
      answers_hasOwnProperty h source = true ->
      answers_hasOwnProperty h target = true ->
      Constructor target h = Throw e h ->
      exists h1, extend (source :: target :: extra) h = Throw e h1)
  /\ (is_specification h source = true ->
      answers_hasOwnProperty h source = true ->
      exists h1, extend (source :: VUndef :: extra) h
                 = Throw (ReferenceError (Constructor_error ++ "undefined"))
                         h1).
Proof.
  assert (Htarget : forall tg e',
            is_specification h source = true ->
            Constructor tg h = Throw e' h ->
            exists h1, extend (source :: tg :: extra) h = Throw e' h1).
  { intros tg e' Hos HC.
    pose proof Hos as (os & obs & -> & Hobs & _)%is_specification_inv.
    apply lookup_lt_Some in Hobs as Hosl.
    pose proof (entry_length h) as Hl0.
    assert (Hos0 : os < length (entry_heap h)) by lia.
    assert (Hspec0 : is_specification (entry_heap h) (VObj os) = true)
      by (by apply is_specification_app).
    rewrite extend_unfold. cbn [nth length Nat.ltb Nat.leb].
    destruct (specification_step (entry_heap h) os Hspec0)
      as (s & h1 & HPs & HSs & Hfs).
    unfold bind at 1. rewrite HPs.
    pose proof (Constructor_Throw_app tg h
                  [function_object LinkFn (S (length h));
                   prototype_object (length h)] e' h HC) as [HC0 Hnf0].
    fold (entry_heap h) in HC0, Hnf0.
    destruct (Constructor_Throw_step _ _ _ _ _ _ Hos0 HSs Hfs Hspec0 HC0)
      as [HC1 Hnf1].
    exists h1. unfold bind.
    rewrite pass_through_not_function; [by rewrite HC1 | done |].
    destruct tg as [| | | | |l]; try done.
    apply typeof_code_eq. unfold is_function in Hnf0, Hnf1.
    destruct (code_of h1 (VObj l)); [done|].
    by destruct (code_of (entry_heap h) (VObj l)). }
  split; [|split].
  - intros HC. rewrite extend_unfold. cbn [nth length Nat.ltb Nat.leb].
    pose proof (Constructor_Throw_app source h
                  [function_object LinkFn (S (length h));
                   prototype_object (length h)] e h HC) as [HC0 Hnf0].
    fold (entry_heap h) in HC0, Hnf0.
    unfold bind. rewrite pass_through_not_function by done.
    by rewrite HC0.
  - intros Hos _ _ HC. by apply Htarget.
  - intros Hos _. by apply Htarget.
Qed.

(** [extend(Source, undefined)] and [extend(42, undefined)] on
    [demo_heap]. *)
Example extend_undefined_target :
  extend [VObj 2; VUndef] demo_heap
  = Throw (ReferenceError (Constructor_error ++ "undefined"))
          (entry_heap demo_heap)
  /\ extend [VNum 42; VUndef] demo_heap
     = Throw (TypeError (Constructor_error ++ "number [42]"))
             (entry_heap demo_heap).
Proof. split; vm_compute; reflexivity. Qed.

(** ** Failures of [parent], and nested calls *)

Lemma copy_loop_no_Throw from to ks h e h' :
  for_each ks (fun k =>
      own <- HasOwnProperty (VObj from) k ;;
      if own : bool then (v <- Get (VObj from) k ;; Put (VObj to) k v)
      else ret tt) h
  <> Throw e h'.
Proof.
  revert h. induction ks as [|k ks IH]; intros h; [done|].
  simpl. unfold bind at 1. unfold bind at 1, HasOwnProperty.
  destruct (h !! from) as [ob|] eqn:Hf; [|done].
  destruct (props_get (o_props ob) k) as [pr|]; [|apply IH].
  unfold bind at 1, Get. rewrite Hf. unfold Put.
  destruct (h !! to); [apply IH | done].
Qed.

Lemma copy_own_no_Throw from to h e h' :
  copy_own (VObj from) (VObj to) h <> Throw e h'.
Proof. unfold copy_own, bind, ForInKeys. apply copy_loop_no_Throw. Qed.

Lemma construct_Ret_obj body f h r h1 :
  construct body f h = Ret r h1 -> exists l, r = VObj l.
Proof.
  unfold construct. destruct (code_of h f) as [c|]; [|done].
  destruct (constructible c); [|done].
  intros H. apply bind_Ret in H as (pv & h2 & _ & H).
  apply bind_Ret in H as (this & h3 & Ha & H).
  apply bind_Ret in H as (r' & h4 & _ & H).
  unfold alloc in Ha. injection Ha as <- <-.
  unfold ret in H. injection H as <- <-.
  destruct r'; eauto.
Qed.

Lemma parent_setup_Ret cb this h p pc h1 :
  parent_setup cb this h = Ret (p, pc) h1 ->
  (exists i, this = VObj i) /\ exists l, p = VObj l.
Proof.
  unfold parent_setup. intros H.
  apply bind_Ret in H as (c & h2 & Hc & H).
  apply bind_Ret in H as (pa & h3 & Hpa & H).
  apply bind_Ret in H as (p' & h4 & Hp & H).
  apply bind_Ret in H as (pc' & h5 & _ & H).
  unfold ret in H. injection H as <- <- <-.
  split; [|by eapply construct_Ret_obj].
  destruct this as [| | | | |i]; try done; [..|eauto];
    unfold Get in Hc; injection Hc as <- <-; done.
Qed.

(** X13: when the parent method throws, and the object [p] it made inherits
    the built-in [hasOwnProperty] once the initializer has returned, the
    error comes from its first three lines (no usable
    [this.constructor.parent]) or from the initializer it applies, and the
    heap is the one they left: the method has copied nothing onto the object
    and has not replaced its [parent], so no error leaves an object half
    copied. *)
Theorem parent_throws_before_copy (cb : callback) (this : value)
        (args : list value) (h : heap) (e : js_error) (h' : heap) :
  parent cb this args h = Throw e h' ->
  (forall p pc h1 r h2,
      parent_setup cb this h = Ret (VObj p, pc) h1 ->
      Apply cb pc (VObj p) args h1 = Ret r h2 ->
      inherits_hasOwnProperty h2 p = true) ->
  parent_setup cb this h = Throw e h'
  \/ exists p pc h1,
       parent_setup cb this h = Ret (p, pc) h1
       /\ Apply cb pc p args h1 = Throw e h'.
Proof.
  rewrite parent_split.
  destruct (parent_setup cb this h) as [[p pc] h1|e1 h1|] eqn:Hsetup;
    [|intros [= -> ->] _; by left|done].
  intros H _. right. exists p, pc, h1. split; [done|].
  destruct (parent_setup_Ret _ _ _ _ _ _ Hsetup) as [[i ->] [l ->]].
  apply bind_Throw in H as [H|(r & h2 & _ & H)]; [done|]. exfalso.
  apply bind_Throw in H as [H|(u & h3 & _ & H)].
  { by apply copy_own_no_Throw in H. }
  apply bind_Throw in H as [H|(u' & h4 & _ & H)]; [|done].
  unfold Put in H. by destruct (h3 !! i).
Qed.

(** [this.parent()] on an object of [Target], the initializer of the source
    throwing after it has assigned a field: the object has no field. *)
Lemma parent_throws_before_copy_refused :
  parent (call failing_code 1) (VObj 12) [] demo_instance
  = Throw (Thrown (VStr "refused")) demo_refused
  /\ (forall p pc h1 r h2,
         parent_setup (call failing_code 1) (VObj 12) demo_instance
         = Ret (VObj p, pc) h1 ->
         Apply (call failing_code 1) pc (VObj p) [] h1 = Ret r h2 ->
         inherits_hasOwnProperty h2 p = true)
  /\ own_prop demo_refused 12 "kind" = None
  /\ (parent_setup (call failing_code 1) (VObj 12) demo_instance
      = Throw (Thrown (VStr "refused")) demo_refused
      \/ exists p pc h1,
           parent_setup (call failing_code 1) (VObj 12) demo_instance
           = Ret (p, pc) h1
           /\ Apply (call failing_code 1) pc p [] h1
              = Throw (Thrown (VStr "refused")) demo_refused).
Proof.
  assert (Hp : forall p pc h1 r h2,
             parent_setup (call failing_code 1) (VObj 12) demo_instance
             = Ret (VObj p, pc) h1 ->
             Apply (call failing_code 1) pc (VObj p) [] h1 = Ret r h2 ->
             inherits_hasOwnProperty h2 p = true).
  { intros p pc h1 r h2 Hsetup. vm_compute in Hsetup.
    injection Hsetup as <- <- <-. discriminate. }
  split; [reflexivity|]. split; [exact Hp|]. split; [reflexivity|].
  apply (parent_throws_before_copy (call failing_code 1) (VObj 12) []
           demo_instance); [reflexivity | exact Hp].
Defined.

(** X14: chains of three constructors.  When the source of a constructor
    [k] was itself made by [extend] (its prototype [t] has the constructor
    [s] and the parent method as own properties, and [s] is wired to its own
    link function), the object [p] the parent method makes for [k] reads
    [constructor] as [s] and [parent] as the parent method, so that
    [this.parent()] in the initializer of [s] makes, in its turn, a link
    instance that delegates to the prototype of the source of [s]. *)
Theorem parent_link_instance_ready
        (user : nat -> callback -> value -> list value -> M value) (n : nat)
        (h : heap) (k f t s f' : loc) (tmpl' pm : value) :
  wired h k f (VObj t) ->
  own_value h t "constructor" = Some (VObj s) ->
  own_value h t "parent" = Some pm ->
  code_of h pm = Some ParentFn ->
  wired h s f' tmpl' ->
  let hp := h ++ [link_instance (VObj t)] in
  let p := VObj (length h) in
  Get p "constructor" hp = Ret (VObj s) hp
  /\ Get p "parent" hp = Ret pm hp
  /\ code_of hp pm = Some ParentFn
  /\ parent_setup (call user (S n)) p hp
     = Ret (VObj (S (length h)),
            get_value (hp ++ [link_instance tmpl']) (S (length h))
                      "constructor")
           (hp ++ [link_instance tmpl']).
Proof.
  intros Hw Hctor Hpar Hpm Hw' hp p.
  pose proof (own_value_Some_lt _ _ _ _ Hctor) as Ht.
  assert (Hp : hp !! length h = Some (link_instance (VObj t))).
  { unfold hp. rewrite lookup_app_r by lia.
    by replace (length h - length h) with 0 by lia. }
  assert (HGc : Get p "constructor" hp = Ret (VObj s) hp).
  { apply (Get_via_proto _ _ _ _ _ _ Hp eq_refl eq_refl).
    unfold hp. by rewrite own_value_app. }
  split; [exact HGc|].
  split.
  { apply (Get_via_proto _ _ _ _ _ _ Hp eq_refl eq_refl).
    unfold hp. by rewrite own_value_app. }
  split.
  { destruct pm as [| | | | |l]; try done.
    unfold hp. rewrite code_of_app; [done|]. by eapply code_of_Some_lt. }
  unfold p.
  rewrite (parent_setup_wired user n hp (length h) s f' tmpl');
    [|by apply wired_app|exact HGc].
  by replace (length hp) with (S (length h)) by (unfold hp; len).
Qed.

(** The constructor made by [extend(Target, {})], object 15, on the heap in
    which [Target], object 5, extends [Source]. *)
Lemma parent_link_instance_ready_chain :
  (wired chain_extended 15 13 (VObj 9)
   /\ own_value chain_extended 9 "constructor" = Some (VObj 5)
   /\ own_value chain_extended 9 "parent" = Some (VObj 10)
   /\ code_of chain_extended (VObj 10) = Some ParentFn
   /\ wired chain_extended 5 7 (VObj 3))
  /\ Get (VObj 20) "constructor" (chain_extended ++ [link_instance (VObj 9)])
     = Ret (VObj 5) (chain_extended ++ [link_instance (VObj 9)])
  /\ Get (VObj 20) "parent" (chain_extended ++ [link_instance (VObj 9)])
     = Ret (VObj 10) (chain_extended ++ [link_instance (VObj 9)])
  /\ code_of (chain_extended ++ [link_instance (VObj 9)]) (VObj 10)
     = Some ParentFn
  /\ parent_setup (call demo_code 1) (VObj 20)
                  (chain_extended ++ [link_instance (VObj 9)])
     = Ret (VObj 21, VObj 2)
           ((chain_extended ++ [link_instance (VObj 9)])
              ++ [link_instance (VObj 3)]).
Proof.
  assert (H1 : wired chain_extended 15 13 (VObj 9)) by (split; reflexivity).
  assert (H2 : wired chain_extended 5 7 (VObj 3)) by (split; reflexivity).
  split; [repeat split; (exact H1 || exact H2 || reflexivity)|].
  apply (parent_link_instance_ready demo_code 0 chain_extended 15 13 9 5 7
           (VObj 3) (VObj 10)); (exact H1 || exact H2 || reflexivity).
Defined.

(** X15: [new K(args)] for the constructor [K] that [extend] returned on two
    specifications, when [K] is a function [new] accepts, runs the body of
    [K] on a new object that delegates to the new prototype, so that in the
    body [this.constructor] is [K], [K] is wired to its link function, and
    [this.parent] is the parent method; when [K] is a method or an arrow
    function, [new K] throws the runtime's TypeError.  The initializer of
    the source is not run unless the body calls [this.parent]: a constructor
    [extend] created, whose body is empty, returns the new object with no
    property of its own. *)
Theorem new_extended_constructor
        (user : nat -> callback -> value -> list value -> M value) (n : nat)
        (h : heap) (source target : value) (extra : list value)
        (K : value) (h' : heap) (args : list value) :
  is_specification h source = true ->
  is_specification h target = true ->
  extend (source :: target :: extra) h = Ret K h' ->
  exists k P f tmpl pm c,
    K = VObj k
    /\ own_value h' k "prototype" = Some (VObj P)
    /\ code_of h' K = Some c
    /\ New user (S n) K args h'
       = (if constructible c then
            (r <- call user (S n) K (VObj (length h')) args ;;
             ret (match r with VObj _ => r | _ => VObj (length h') end))
              (h' ++ [Obj (Some P) None []])
          else Throw EngineTypeError h')
    /\ wired (h' ++ [Obj (Some P) None []]) k f tmpl
    /\ Get (VObj (length h')) "constructor" (h' ++ [Obj (Some P) None []])
       = Ret K (h' ++ [Obj (Some P) None []])
    /\ Get (VObj (length h')) "parent" (h' ++ [Obj (Some P) None []])
       = Ret pm (h' ++ [Obj (Some P) None []])
    /\ code_of (h' ++ [Obj (Some P) None []]) pm = Some ParentFn
    /\ (code_of h' K = Some NoopFn ->
        New user (S n) K args h'
        = Ret (VObj (length h')) (h' ++ [Obj (Some P) None []])).
Proof.
  intros Hos Hot HE.
  pose proof Hos as (os & obs & -> & _ & _)%is_specification_inv.
  pose proof Hot as (ot & obt & -> & _ & _)%is_specification_inv.
  destruct (extend_anatomy _ _ _ _ _ _ Hos Hot HE)
    as (s & k & h1 & h2 & -> & -> & HSs & HSt & Hfs & Hfk & Hs_old & Hk_old
        & Hosl & Hotl & Hl1 & Hl2 & Hs & Hk).
  assert (Hf : length h < length h2) by lia.
  assert (Hs2 : s < length h2) by lia.
  assert (Hfk' : length h <> k) by lia.
  set (ty := typeof h (VObj ot)).
  pose proof (built_length h2 (length h) s k ty Hf Hs2 Hk) as Hlen.
  pose proof (built_prototype h2 (length h) s k ty Hf Hs2 Hk) as Hproto.
  pose proof (built_parent h2 (length h) s k ty Hf Hs2 Hk) as Hparent.
  pose proof (built_constructor h2 (length h) s k ty Hf Hs2 Hk) as Hback.
  pose proof (built_parent_method h2 (length h) s k ty Hf Hs2 Hk) as Hmeth.
  pose proof (built_parent_code h2 (length h) s k ty Hf Hs2 Hk) as Hmcode.
  pose proof (built_code h2 (length h) s k ty Hf Hs2 Hk (length h) Hf) as Hlink.
  pose proof (built_code h2 (length h) s k ty Hf Hs2 Hk k Hk) as HKcode.
  pose proof (built_link_prototype h2 (length h) s k ty Hf Hs2 Hk Hfk')
    as Htmpl.
  assert (Hlink2 : code_of h2 (VObj (length h)) = Some LinkFn).
  { assert (Hos0 : os < length (entry_heap h))
      by (rewrite entry_length; lia).
    assert (Hot1 : ot < length h1) by lia.
    rewrite (normalized_code _ _ _ _ Hot1 HSt) by lia.
    rewrite (normalized_code _ _ _ _ Hos0 HSs) by (rewrite entry_length; lia).
    apply entry_link_code. }
  rewrite Hlink2 in Hlink.
  apply is_function_code in Hfk as [cd Hcd]. rewrite Hcd in HKcode.
  generalize dependent (built_heap h2 (length h) s k ty).
  clear HE. intros bh Hlen Hproto Hparent Hback Hmeth Hmcode Hlink HKcode Htmpl.
  set (hi := bh ++ [Obj (Some (length h2)) None []]).
  assert (Hi : hi !! length bh = Some (Obj (Some (length h2)) None [])).
  { unfold hi. rewrite lookup_app_r by lia.
    by replace (length bh - length bh) with 0 by lia. }
  assert (HNew : New user (S n) (VObj k) args bh
                 = (if constructible cd then
                      (r <- call user (S n) (VObj k) (VObj (length bh)) args ;;
                       ret (match r with
                            | VObj _ => r
                            | _ => VObj (length bh)
                            end)) hi
                    else Throw EngineTypeError bh)).
  { unfold New, construct. rewrite HKcode.
    destruct (constructible cd); [|done].
    unfold bind at 1. rewrite (Get_own_value _ _ _ _ Hproto).
    unfold bind at 1, alloc. reflexivity. }
  exists k, (length h2), (length h), (get_value h2 s "prototype"),
         (VObj (S (length h2))), cd.
  split; [done|]. split; [done|]. split; [done|]. split; [exact HNew|].
  split; [by apply wired_app|].
  split.
  { apply (Get_via_proto _ _ _ _ _ _ Hi eq_refl eq_refl).
    unfold hi. by rewrite own_value_app by lia. }
  split.
  { apply (Get_via_proto _ _ _ _ _ _ Hi eq_refl eq_refl).
    unfold hi. by rewrite own_value_app by lia. }
  split; [unfold hi; by rewrite code_of_app by lia|].
  intros Hnoop. rewrite HNew.
  assert (cd = NoopFn) as -> by congruence.
  cbn [constructible]. unfold bind.
  rewrite call_S. unfold hi at 1. rewrite code_of_app by lia.
  rewrite Hnoop. reflexivity.
Qed.

(** [new K()] for the constructor made by [extend(Target, {})], whose body is
    empty: the new object, object 20, has no property of its own. *)
Lemma new_extended_constructor_chain :
  (is_specification chain_heap (VObj 5) = true
   /\ is_specification chain_heap (VObj 12) = true
   /\ extend [VObj 5; VObj 12] chain_heap = Ret (VObj 15) chain_extended)
  /\ New demo_code 1 (VObj 15) [] chain_extended
     = Ret (VObj 20) (chain_extended ++ [Obj (Some 17) None []])
  /\ exists k P f tmpl pm c,
       VObj 15 = VObj k
       /\ own_value chain_extended k "prototype" = Some (VObj P)
       /\ code_of chain_extended (VObj 15) = Some c
       /\ New demo_code 1 (VObj 15) [] chain_extended
          = (if constructible c then
               (r <- call demo_code 1 (VObj 15)
                          (VObj (length chain_extended)) [] ;;
                ret (match r with
                     | VObj _ => r
                     | _ => VObj (length chain_extended)
                     end))
                 (chain_extended ++ [Obj (Some P) None []])
             else Throw EngineTypeError chain_extended)
       /\ wired (chain_extended ++ [Obj (Some P) None []]) k f tmpl
       /\ Get (VObj (length chain_extended)) "constructor"
              (chain_extended ++ [Obj (Some P) None []])
          = Ret (VObj 15) (chain_extended ++ [Obj (Some P) None []])
       /\ Get (VObj (length chain_extended)) "parent"
              (chain_extended ++ [Obj (Some P) None []])
          = Ret pm (chain_extended ++ [Obj (Some P) None []])
       /\ code_of (chain_extended ++ [Obj (Some P) None []]) pm
          = Some ParentFn
       /\ (code_of chain_extended (VObj 15) = Some NoopFn ->
           New demo_code 1 (VObj 15) [] chain_extended
           = Ret (VObj (length chain_extended))
                 (chain_extended ++ [Obj (Some P) None []])).
Proof.
  split; [repeat split; reflexivity|]. split; [reflexivity|].
  apply (new_extended_constructor demo_code 0 chain_heap (VObj 5) (VObj 12)
           [] (VObj 15) chain_extended []); reflexivity.
Defined.

(** ** What [extend] never changes *)

(** X16: a successful call of [extend], on any arguments, changes no
    prototype link and no function body of an object that existed before:
    objects made earlier with [new] keep delegating to the prototype they
    were made with, also when that is the prototype [extend] has just
    replaced on their constructor. *)
Theorem extend_keeps_links_and_bodies (args : list value) (h : heap)
        (K : value) (h' : heap) :
  extend args h = Ret K h' ->
  forall l, l < length h ->
    proto_of h' l = proto_of h l
    /\ code_of h' (VObj l) = code_of h (VObj l).
Proof.
  intros HE l Hl.
  apply extend_Ret_inv in HE
    as (_ & s & k & h1 & h2 & HPs & HPt & Hs & Hk & Hf & Hl1 & Hl2 & Hcode
        & -> & ->).
  pose proof (entry_length h) as Hl0.
  assert (Hstep : forall ty v (hx hx1 : heap) r,
            pass_through ty v hx = Ret r hx1 -> l < length hx ->
            proto_of hx1 l = proto_of hx l
            /\ code_of hx1 (VObj l) = code_of hx (VObj l)).
  { intros ty v hx hx1 r HP Hlx.
    apply pass_through_Ret_inv in HP
      as [(_ & -> & _)|(_ & o & c & _ & _ & Ho & _ & HN)]; [done|].
    apply lookup_lt_is_Some in Ho.
    split; [exact (normalizes_proto _ _ _ _ Ho HN l Hlx)
           | exact (normalizes_code _ _ _ _ Ho HN l Hlx)]. }
  destruct (Hstep _ _ _ _ _ HPs ltac:(lia)) as [Hp1 Hc1].
  destruct (Hstep _ _ _ _ _ HPt ltac:(lia)) as [Hp2 Hc2].
  rewrite built_proto, built_code by (done || lia).
  rewrite Hp2, Hp1, Hc2, Hc1. unfold entry_heap.
  by rewrite proto_of_app, code_of_app.
Qed.

(** An object made by [new Target] before [extend(Source, Target)] still
    delegates to the old prototype of [Target], object 6, and has no
    [parent]. *)
Lemma extend_keeps_links_and_bodies_demo :
  (extend [VObj 2; VObj 5] demo_early = Ret (VObj 5) demo_early_extended
   /\ 7 < length demo_early)
  /\ (proto_of demo_early_extended 7 = proto_of demo_early 7
      /\ code_of demo_early_extended (VObj 7) = code_of demo_early (VObj 7))
  /\ proto_of demo_early_extended 7 = Some 6
  /\ Get (VObj 7) "parent" demo_early_extended
     = Ret VUndef demo_early_extended.
Proof.
  split; [split; [reflexivity | vm_compute; lia]|].
  split; [|split; reflexivity].
  apply (extend_keeps_links_and_bodies [VObj 2; VObj 5] demo_early (VObj 5)
           demo_early_extended); [reflexivity | vm_compute; lia].
Defined.
